(** * AudioVideoMonitor system extension: event dispatch, device policy,
      process registry and audit store

    A shallow embedding of [src/SystemExtension]: the controller object of
    [AudioVideoController.h] becomes a record, its member functions become
    functions over that record, the SQLite audit store becomes six lists of
    rows, and the operating system (Endpoint Security, libproc, IOKit, the
    clock) becomes a record of observations passed to the functions that
    query it.  Each source file has a module of the same name; the two
    definitions of [AudioVideoController::handleESEvent] (one in
    [AudioVideoController.cpp], one in [ProcessMonitoring.cpp]) live in their
    file's module and are both verified. *)

From Stdlib Require Import ZArith String Ascii List Lia Bool.
From stdpp Require Import base decidable option list gmap sorting strings pretty.

Local Open Scope Z_scope.

(** ** C and C++ strings *)

(** A path or library name is the content of a NUL-terminated buffer, so it
    holds no NUL itself; [strstr] on the buffer and [std::string::find] on
    the [std::string] built from it then search the same characters. *)

Fixpoint find_from (needle s : string) (pos : nat) : option nat :=
  if String.prefix needle s then Some pos
  else match s with
       | EmptyString => None
       | String _ s' => find_from needle s' (S pos)
       end.

(** [s.find(needle)]: offset of the first occurrence; [None] is [npos]. *)
Definition string_find (s needle : string) : option nat := find_from needle s 0.

(** [strstr(haystack, needle)] as the source uses it: only tested against
    [NULL]. *)
Definition strstr (haystack needle : string) : bool :=
  match string_find haystack needle with Some _ => true | None => false end.

(** [needle] occurs somewhere inside [s]. *)
Definition Substring (needle s : string) : Prop :=
  ∃ pre post : string, s = pre +:+ needle +:+ post.

(** ** Fixed-width integers *)

Definition to_uint64 (z : Z) : Z := z mod 2 ^ 64.
Definition to_int64 (z : Z) : Z := (z + 2 ^ 63) mod 2 ^ 64 - 2 ^ 63.
Definition to_int32 (z : Z) : Z := (z + 2 ^ 31) mod 2 ^ 32 - 2 ^ 31.

(** ** AudioVideoController.h: the data model *)

Module ProcessInfo.
Record t := mk {
  pid : Z;
  ppid : Z;
  executablePath : string;
  commandLine : string;
  bundleIdentifier : string;
  uid : Z;
  gid : Z;
  startTime : Z;
  cpuTime : Z;
  memoryUsage : Z;
  openFiles : list string;
  networkConnections : list string;
  loadedLibraries : list string;
  (* std::map<std::string, std::string>, as its entries in key order *)
  environmentVariables : list (string * string);
  isSystemProcess : bool;
  hasAudioAccess : bool;
  hasVideoAccess : bool;
  hasNetworkAccess : bool;
  hasFileSystemAccess : bool
}.
End ProcessInfo.
Abbreviation ProcessInfo := ProcessInfo.t.

Module NetworkConnection.
Record t := mk {
  protocol : string;
  localAddress : string;
  localPort : Z;
  remoteAddress : string;
  remotePort : Z;
  state : string;
  pid : Z;
  timestamp : Z
}.
End NetworkConnection.
Abbreviation NetworkConnection := NetworkConnection.t.

Module FileAccess.
Record t := mk {
  pid : Z;
  filePath : string;
  accessType : string;
  timestamp : Z;
  wasBlocked : bool;
  reason : string
}.
End FileAccess.
Abbreviation FileAccess := FileAccess.t.

(** ** Endpoint Security messages *)

(** The event types the client subscribes to in
    [AudioVideoController::initialize]; no other type is delivered. *)
Inductive es_event_type_t :=
  | ES_EVENT_TYPE_NOTIFY_EXEC
  | ES_EVENT_TYPE_NOTIFY_EXIT
  | ES_EVENT_TYPE_NOTIFY_FORK
  | ES_EVENT_TYPE_NOTIFY_SIGNAL
  | ES_EVENT_TYPE_NOTIFY_SETUID
  | ES_EVENT_TYPE_NOTIFY_SETGID
  | ES_EVENT_TYPE_AUTH_OPEN
  | ES_EVENT_TYPE_NOTIFY_OPEN
  | ES_EVENT_TYPE_NOTIFY_CLOSE
  | ES_EVENT_TYPE_AUTH_CREATE
  | ES_EVENT_TYPE_NOTIFY_CREATE
  | ES_EVENT_TYPE_AUTH_UNLINK
  | ES_EVENT_TYPE_NOTIFY_UNLINK
  | ES_EVENT_TYPE_AUTH_RENAME
  | ES_EVENT_TYPE_NOTIFY_RENAME
  | ES_EVENT_TYPE_NOTIFY_WRITE
  | ES_EVENT_TYPE_NOTIFY_ACCESS
  | ES_EVENT_TYPE_NOTIFY_CHDIR
  | ES_EVENT_TYPE_NOTIFY_STAT
  | ES_EVENT_TYPE_NOTIFY_READDIR
  | ES_EVENT_TYPE_NOTIFY_MMAP
  | ES_EVENT_TYPE_NOTIFY_MUNMAP
  | ES_EVENT_TYPE_NOTIFY_MPROTECT
  | ES_EVENT_TYPE_AUTH_KEXTLOAD
  | ES_EVENT_TYPE_NOTIFY_KEXTLOAD
  | ES_EVENT_TYPE_AUTH_EXEC
  | ES_EVENT_TYPE_AUTH_FILE_PROVIDER_MATERIALIZE
  | ES_EVENT_TYPE_AUTH_FILE_PROVIDER_UPDATE
  | ES_EVENT_TYPE_NOTIFY_IOKIT_OPEN
  | ES_EVENT_TYPE_NOTIFY_DUP
  | ES_EVENT_TYPE_AUTH_COPYFILE
  | ES_EVENT_TYPE_NOTIFY_COPYFILE
  | ES_EVENT_TYPE_AUTH_TRUNCATE
  | ES_EVENT_TYPE_NOTIFY_TRUNCATE.

Inductive es_action_type_t := ES_ACTION_TYPE_AUTH | ES_ACTION_TYPE_NOTIFY.

Inductive es_auth_result_t := ES_AUTH_RESULT_ALLOW | ES_AUTH_RESULT_DENY.

Global Instance es_event_type_eq_dec : EqDecision es_event_type_t.
Proof. solve_decision. Defined.
Global Instance es_action_type_eq_dec : EqDecision es_action_type_t.
Proof. solve_decision. Defined.
Global Instance es_auth_result_eq_dec : EqDecision es_auth_result_t.
Proof. solve_decision. Defined.

(** [es_string_token_t]: [None] is a null [data] pointer, [Some s] a buffer
    whose [length] characters are [s]. *)
Definition es_string_token_t := option string.

(** [es_process_t], with the three projections of its audit token. *)
Record es_process_t := {
  audit_token_to_pid : Z;
  audit_token_to_uid : Z;
  audit_token_to_gid : Z;
  process_ppid : Z;
  executable_path : string
}.

(** The members of the [event] union that the handlers read.  Each is
    meaningful for the event types that carry it. *)
Record es_events_t := {
  open_file_path : es_string_token_t;      (* event.open.file.path *)
  exec_target_path : string;               (* event.exec.target->executable->path *)
  write_target_path : es_string_token_t;   (* event.write.target.path *)
  unlink_target_path : es_string_token_t;  (* event.unlink.target.path *)
  signal_sig : Z;                          (* event.signal.sig *)
  signal_target_pid : Z;                   (* event.signal.target->audit_token *)
  fork_child_pid : Z;                      (* event.fork.child->pid *)
  setuid_uid : Z                           (* event.setuid.uid *)
}.

Record es_message_t := {
  event_type : es_event_type_t;
  action_type : es_action_type_t;
  process : es_process_t;
  event : es_events_t
}.

(** The Endpoint Security interface fixes the action class of a message by
    its event type: [ES_EVENT_TYPE_AUTH_*] messages are held for a decision,
    [ES_EVENT_TYPE_NOTIFY_*] messages are not. *)
Definition es_event_action (t : es_event_type_t) : es_action_type_t :=
  match t with
  | ES_EVENT_TYPE_AUTH_OPEN | ES_EVENT_TYPE_AUTH_CREATE
  | ES_EVENT_TYPE_AUTH_UNLINK | ES_EVENT_TYPE_AUTH_RENAME
  | ES_EVENT_TYPE_AUTH_KEXTLOAD | ES_EVENT_TYPE_AUTH_EXEC
  | ES_EVENT_TYPE_AUTH_FILE_PROVIDER_MATERIALIZE
  | ES_EVENT_TYPE_AUTH_FILE_PROVIDER_UPDATE
  | ES_EVENT_TYPE_AUTH_COPYFILE | ES_EVENT_TYPE_AUTH_TRUNCATE =>
      ES_ACTION_TYPE_AUTH
  | _ => ES_ACTION_TYPE_NOTIFY
  end.

(** A message as the kernel delivers it. *)
Definition delivered (m : es_message_t) : Prop :=
  action_type m = es_event_action (event_type m).

(** ** Observations of the operating system *)

Record proc_bsdinfo := {
  pbi_ppid : Z; pbi_uid : Z; pbi_gid : Z; pbi_start_tvsec : Z
}.
Record proc_taskinfo := {
  pti_resident_size : Z; pti_total_user : Z; pti_total_system : Z
}.
Record proc_taskallinfo := { pbsd : proc_bsdinfo; ptinfo : proc_taskinfo }.

Definition KERN_SUCCESS : Z := 0.

(** What the system answers while one member function runs.  A libproc
    query that returns a positive size is [Some]; one that fails is [None].
    The five collector walks over kernel buffers (argument block, descriptor
    table, image list) are taken by their result. *)
Record OS := {
  mach_absolute_time : Z;
  proc_pidinfo_TASKALLINFO : Z → option proc_taskallinfo;
  proc_pidinfo_TASKINFO : Z → option proc_taskinfo;
  proc_pidpath : Z → option string;
  observed_command_line : Z → string;
  observed_open_files : Z → list string;
  observed_sockets : Z → list string;
  observed_images : Z → list string;
  observed_environment : Z → list (string * string);
  (* kern_return_t of IOServiceGetMatchingServices for a device class *)
  IOServiceGetMatchingServices : string → Z;
  (* contents of an automatic ProcessInfo before any member is assigned:
     its scalar members are indeterminate, its strings and containers are
     default-constructed *)
  indeterminate : ProcessInfo
}.

(** ** The audit store *)

(** One record per table of [createDatabaseTables], without the
    [AUTOINCREMENT] key: a table is the list of its rows in insertion
    order. *)
Module process_events.
Record row := mk {
  timestamp : Z; pid : Z; ppid : Z; executable_path : string;
  command_line : string; bundle_id : string; uid : Z; gid : Z;
  event_type : string; cpu_time : Z; memory_usage : Z;
  is_system_process : Z
}.
End process_events.

Module file_access.
Record row := mk {
  timestamp : Z; pid : Z; file_path : string; access_type : string;
  was_blocked : Z; reason : string
}.
End file_access.

Module network_connections.
Record row := mk {
  timestamp : Z; pid : Z; protocol : string; local_address : string;
  local_port : Z; remote_address : string; remote_port : Z; state : string
}.
End network_connections.

Module system_calls.
Record row := mk {
  timestamp : Z; pid : Z; syscall_name : string; arguments : string;
  return_value : string
}.
End system_calls.

Module loaded_libraries.
Record row := mk {
  timestamp : Z; pid : Z; library_path : string; load_address : string
}.
End loaded_libraries.

Module environment_vars.
Record row := mk {
  timestamp : Z; pid : Z; var_name : string; var_value : string
}.
End environment_vars.

Record AuditDb := {
  tbl_process_events : list process_events.row;
  tbl_file_access : list file_access.row;
  tbl_network_connections : list network_connections.row;
  tbl_system_calls : list system_calls.row;
  tbl_loaded_libraries : list loaded_libraries.row;
  tbl_environment_vars : list environment_vars.row
}.

Definition empty_db : AuditDb :=
  {| tbl_process_events := []; tbl_file_access := [];
     tbl_network_connections := []; tbl_system_calls := [];
     tbl_loaded_libraries := []; tbl_environment_vars := [] |}.

Definition insert_process_events (r : process_events.row) (db : AuditDb) :=
  {| tbl_process_events := tbl_process_events db ++ [r];
     tbl_file_access := tbl_file_access db;
     tbl_network_connections := tbl_network_connections db;
     tbl_system_calls := tbl_system_calls db;
     tbl_loaded_libraries := tbl_loaded_libraries db;
     tbl_environment_vars := tbl_environment_vars db |}.

Definition insert_file_access (r : file_access.row) (db : AuditDb) :=
  {| tbl_process_events := tbl_process_events db;
     tbl_file_access := tbl_file_access db ++ [r];
     tbl_network_connections := tbl_network_connections db;
     tbl_system_calls := tbl_system_calls db;
     tbl_loaded_libraries := tbl_loaded_libraries db;
     tbl_environment_vars := tbl_environment_vars db |}.

Definition insert_network_connections (r : network_connections.row)
    (db : AuditDb) :=
  {| tbl_process_events := tbl_process_events db;
     tbl_file_access := tbl_file_access db;
     tbl_network_connections := tbl_network_connections db ++ [r];
     tbl_system_calls := tbl_system_calls db;
     tbl_loaded_libraries := tbl_loaded_libraries db;
     tbl_environment_vars := tbl_environment_vars db |}.

Definition insert_system_calls (r : system_calls.row) (db : AuditDb) :=
  {| tbl_process_events := tbl_process_events db;
     tbl_file_access := tbl_file_access db;
     tbl_network_connections := tbl_network_connections db;
     tbl_system_calls := tbl_system_calls db ++ [r];
     tbl_loaded_libraries := tbl_loaded_libraries db;
     tbl_environment_vars := tbl_environment_vars db |}.

Definition insert_loaded_libraries (r : loaded_libraries.row) (db : AuditDb) :=
  {| tbl_process_events := tbl_process_events db;
     tbl_file_access := tbl_file_access db;
     tbl_network_connections := tbl_network_connections db;
     tbl_system_calls := tbl_system_calls db;
     tbl_loaded_libraries := tbl_loaded_libraries db ++ [r];
     tbl_environment_vars := tbl_environment_vars db |}.

Definition insert_environment_vars (r : environment_vars.row) (db : AuditDb) :=
  {| tbl_process_events := tbl_process_events db;
     tbl_file_access := tbl_file_access db;
     tbl_network_connections := tbl_network_connections db;
     tbl_system_calls := tbl_system_calls db;
     tbl_loaded_libraries := tbl_loaded_libraries db;
     tbl_environment_vars := tbl_environment_vars db ++ [r] |}.

(** [SELECT * FROM t ORDER BY timestamp DESC LIMIT n].  Rows with equal
    timestamps keep their insertion order here; SQLite leaves their order
    open and nothing below depends on it. *)
Section select.
Context {Row : Type} (timestamp : Row → Z).

Definition newer_first (r1 r2 : Row) : Prop := timestamp r2 ≤ timestamp r1.

Global Instance newer_first_dec r1 r2 : Decision (newer_first r1 r2).
Proof. unfold newer_first. apply _. Defined.

Definition select_order_by_timestamp_desc_limit (n : nat)
    (rows : list Row) : list Row :=
  take n (merge_sort newer_first rows).
End select.

(** ** The controller object *)

Record Controller := {
  microphoneEnabled : bool;
  cameraEnabled : bool;
  (* sqlite3*: [None] is the null handle, on which no statement prepares *)
  database : option AuditDb;
  (* pthread_mutex_t: [true] while the running thread holds it *)
  databaseMutex : bool;
  monitoringEnabled : bool;
  runningProcesses : gmap Z ProcessInfo;
  activeConnections : list NetworkConnection;
  recentFileAccess : list FileAccess
}.

Definition set_microphoneEnabled (b : bool) (c : Controller) : Controller :=
  {| microphoneEnabled := b; cameraEnabled := cameraEnabled c;
     database := database c; databaseMutex := databaseMutex c;
     monitoringEnabled := monitoringEnabled c;
     runningProcesses := runningProcesses c;
     activeConnections := activeConnections c;
     recentFileAccess := recentFileAccess c |}.

Definition set_cameraEnabled (b : bool) (c : Controller) : Controller :=
  {| microphoneEnabled := microphoneEnabled c; cameraEnabled := b;
     database := database c; databaseMutex := databaseMutex c;
     monitoringEnabled := monitoringEnabled c;
     runningProcesses := runningProcesses c;
     activeConnections := activeConnections c;
     recentFileAccess := recentFileAccess c |}.

Definition set_database (d : option AuditDb) (c : Controller) : Controller :=
  {| microphoneEnabled := microphoneEnabled c;
     cameraEnabled := cameraEnabled c;
     database := d; databaseMutex := databaseMutex c;
     monitoringEnabled := monitoringEnabled c;
     runningProcesses := runningProcesses c;
     activeConnections := activeConnections c;
     recentFileAccess := recentFileAccess c |}.

Definition set_databaseMutex (b : bool) (c : Controller) : Controller :=
  {| microphoneEnabled := microphoneEnabled c;
     cameraEnabled := cameraEnabled c;
     database := database c; databaseMutex := b;
     monitoringEnabled := monitoringEnabled c;
     runningProcesses := runningProcesses c;
     activeConnections := activeConnections c;
     recentFileAccess := recentFileAccess c |}.

Definition set_runningProcesses (m : gmap Z ProcessInfo) (c : Controller)
    : Controller :=
  {| microphoneEnabled := microphoneEnabled c;
     cameraEnabled := cameraEnabled c;
     database := database c; databaseMutex := databaseMutex c;
     monitoringEnabled := monitoringEnabled c;
     runningProcesses := m;
     activeConnections := activeConnections c;
     recentFileAccess := recentFileAccess c |}.

Definition set_recentFileAccess (l : list FileAccess) (c : Controller)
    : Controller :=
  {| microphoneEnabled := microphoneEnabled c;
     cameraEnabled := cameraEnabled c;
     database := database c; databaseMutex := databaseMutex c;
     monitoringEnabled := monitoringEnabled c;
     runningProcesses := runningProcesses c;
     activeConnections := activeConnections c;
     recentFileAccess := l |}.

(** ** Member functions that may block

    [databaseMutex] is initialised with default attributes, so it is not
    recursive: [pthread_mutex_lock] by the thread that already holds it does
    not return.  A member function therefore either returns, with a value
    and the controller as it left it, or blocks, leaving the controller as
    it was when the thread stopped. *)

Inductive outcome (A : Type) :=
  | Returned (a : A) (c : Controller)
  | Blocked (c : Controller).
Arguments Returned {A} a c.
Arguments Blocked {A} c.

Definition M (A : Type) : Type := Controller → outcome A.

Definition ret {A} (a : A) : M A := fun c => Returned a c.

Definition bind {A B} (m : M A) (k : A → M B) : M B :=
  fun c => match m c with
           | Returned a c' => k a c'
           | Blocked c' => Blocked c'
           end.

Notation "'let*' x := m 'in' k" := (bind m (fun x => k))
  (at level 10, x name, m at level 100, k at level 200).
Notation "m >> k" := (bind m (fun _ => k))
  (at level 100, k at level 200, right associativity).

Definition get {A} (f : Controller → A) : M A := fun c => Returned (f c) c.
Definition modify (f : Controller → Controller) : M unit :=
  fun c => Returned tt (f c).

(** The controller a call leaves behind, whether it returned or not. *)
Definition final {A} (o : outcome A) : Controller :=
  match o with Returned _ c => c | Blocked c => c end.

Definition returned {A} (o : outcome A) : bool :=
  match o with Returned _ _ => true | Blocked _ => false end.

Fixpoint for_each {A} (l : list A) (body : A → M unit) : M unit :=
  match l with
  | [] => ret tt
  | x :: l' => body x >> for_each l' body
  end.

Definition pthread_mutex_lock : M unit :=
  fun c => if databaseMutex c then Blocked c
           else Returned tt (set_databaseMutex true c).

Definition pthread_mutex_unlock : M unit := modify (set_databaseMutex false).

(** [sqlite3_prepare_v2 ... == SQLITE_OK], then bind, [sqlite3_step] and
    [sqlite3_finalize] of one [INSERT]: the row is appended when the handle
    is open, and the statement is skipped when it is not. *)
Definition sqlite3_insert (ins : AuditDb → AuditDb) : M unit :=
  modify (fun c => match database c with
                   | Some db => set_database (Some (ins db)) c
                   | None => c
                   end).

(** ** DatabaseLogging.cpp *)

Module DatabaseLogging.

Definition process_events_row (process : ProcessInfo) (event : string)
    : process_events.row :=
  {| process_events.timestamp := to_int64 (ProcessInfo.startTime process);
     process_events.pid := ProcessInfo.pid process;
     process_events.ppid := ProcessInfo.ppid process;
     process_events.executable_path := ProcessInfo.executablePath process;
     process_events.command_line := ProcessInfo.commandLine process;
     process_events.bundle_id := ProcessInfo.bundleIdentifier process;
     process_events.uid := to_int32 (ProcessInfo.uid process);
     process_events.gid := to_int32 (ProcessInfo.gid process);
     process_events.event_type := event;
     process_events.cpu_time := to_int64 (ProcessInfo.cpuTime process);
     process_events.memory_usage :=
       to_int64 (ProcessInfo.memoryUsage process);
     process_events.is_system_process :=
       if ProcessInfo.isSystemProcess process then 1 else 0 |}.

Definition file_access_row (access : FileAccess) : file_access.row :=
  {| file_access.timestamp := to_int64 (FileAccess.timestamp access);
     file_access.pid := FileAccess.pid access;
     file_access.file_path := FileAccess.filePath access;
     file_access.access_type := FileAccess.accessType access;
     file_access.was_blocked := if FileAccess.wasBlocked access then 1 else 0;
     file_access.reason := FileAccess.reason access |}.

Definition network_connections_row (connection : NetworkConnection)
    : network_connections.row :=
  {| network_connections.timestamp :=
       to_int64 (NetworkConnection.timestamp connection);
     network_connections.pid := NetworkConnection.pid connection;
     network_connections.protocol := NetworkConnection.protocol connection;
     network_connections.local_address :=
       NetworkConnection.localAddress connection;
     network_connections.local_port :=
       NetworkConnection.localPort connection;
     network_connections.remote_address :=
       NetworkConnection.remoteAddress connection;
     network_connections.remote_port :=
       NetworkConnection.remotePort connection;
     network_connections.state := NetworkConnection.state connection |}.

Definition logFileAccess (access : FileAccess) : M unit :=
  pthread_mutex_lock >>
  sqlite3_insert (insert_file_access (file_access_row access)) >>
  pthread_mutex_unlock.

Definition logProcessEvent (process : ProcessInfo) (event : string)
    : M unit :=
  pthread_mutex_lock >>
  (let* db := get database in
   match db with
   | Some _ =>
       sqlite3_insert
         (insert_process_events (process_events_row process event)) >>
       (* Log open files *)
       for_each (ProcessInfo.openFiles process) (fun file =>
         logFileAccess
           {| FileAccess.pid := ProcessInfo.pid process;
              FileAccess.filePath := file;
              FileAccess.accessType := "OPEN_FILE";
              FileAccess.timestamp := ProcessInfo.startTime process;
              FileAccess.wasBlocked := false;
              FileAccess.reason := "" |}) >>
       (* Log loaded libraries *)
       for_each (ProcessInfo.loadedLibraries process) (fun lib =>
         sqlite3_insert (insert_loaded_libraries
           {| loaded_libraries.timestamp :=
                to_int64 (ProcessInfo.startTime process);
              loaded_libraries.pid := ProcessInfo.pid process;
              loaded_libraries.library_path := lib;
              loaded_libraries.load_address := "0x0" |})) >>
       (* Log environment variables *)
       for_each (ProcessInfo.environmentVariables process) (fun env =>
         sqlite3_insert (insert_environment_vars
           {| environment_vars.timestamp :=
                to_int64 (ProcessInfo.startTime process);
              environment_vars.pid := ProcessInfo.pid process;
              environment_vars.var_name := fst env;
              environment_vars.var_value := snd env |}))
   | None => ret tt
   end) >>
  pthread_mutex_unlock.

Definition logNetworkEvent (connection : NetworkConnection) : M unit :=
  pthread_mutex_lock >>
  sqlite3_insert
    (insert_network_connections (network_connections_row connection)) >>
  pthread_mutex_unlock.

Definition logSystemCall (os : OS) (pid : Z) (syscall args : string)
    : M unit :=
  pthread_mutex_lock >>
  sqlite3_insert (insert_system_calls
    {| system_calls.timestamp := to_int64 (mach_absolute_time os);
       system_calls.pid := pid;
       system_calls.syscall_name := syscall;
       system_calls.arguments := args;
       system_calls.return_value := "0" |}) >>
  pthread_mutex_unlock.


Definition access_of_row (r : file_access.row) : FileAccess :=
  {| FileAccess.timestamp := to_uint64 (file_access.timestamp r);
     FileAccess.pid := file_access.pid r;
     FileAccess.filePath := file_access.file_path r;
     FileAccess.accessType := file_access.access_type r;
     FileAccess.wasBlocked := negb (file_access.was_blocked r =? 0);
     FileAccess.reason := file_access.reason r |}.


(** The rows selected by the statement of [getFileAccessHistory]. *)
Definition file_access_selected (db : AuditDb) : list file_access.row :=
  select_order_by_timestamp_desc_limit file_access.timestamp
    5000 (tbl_file_access db).


Definition getFileAccessHistory : M (list FileAccess) :=
  pthread_mutex_lock >>
  let* db := get database in
  let accesses :=
    match db with
    | Some db => map access_of_row (file_access_selected db)
    | None => []
    end in
  pthread_mutex_unlock >>
  ret accesses.

End DatabaseLogging.

(** ** ProcessAnalysis.cpp *)

Module ProcessAnalysis.

Definition getProcessCommandLine (os : OS) (pid : Z) : string :=
  observed_command_line os pid.
Definition getProcessOpenFiles (os : OS) (pid : Z) : list string :=
  observed_open_files os pid.
Definition getProcessNetworkConnections (os : OS) (pid : Z) : list string :=
  observed_sockets os pid.
Definition getProcessLoadedLibraries (os : OS) (pid : Z) : list string :=
  observed_images os pid.
Definition getProcessEnvironment (os : OS) (pid : Z)
    : list (string * string) :=
  observed_environment os pid.

Definition getProcessMemoryUsage (os : OS) (pid : Z) : Z :=
  match proc_pidinfo_TASKINFO os pid with
  | Some taskInfo => pti_resident_size taskInfo
  | None => 0
  end.

Definition getProcessCPUTime (os : OS) (pid : Z) : Z :=
  match proc_pidinfo_TASKINFO os pid with
  | Some taskInfo =>
      to_uint64 (pti_total_user taskInfo + pti_total_system taskInfo)
  | None => 0
  end.

Definition systemProcesses : list string :=
  [ "kernel_task"; "launchd"; "kextd"; "UserEventAgent";
    "loginwindow"; "WindowServer"; "Dock"; "Finder";
    "SystemUIServer"; "coreaudiod"; "VDCAssistant" ]%string.

(** [path.find(prefix) == 0] *)
Definition found_at_0 (path needle : string) : bool :=
  match string_find path needle with Some O => true | _ => false end.

Definition isSystemCriticalProcess (os : OS) (pid : Z) : bool :=
  match proc_pidpath os pid with
  | Some path =>
      if found_at_0 path "/System/" || found_at_0 path "/usr/" ||
         found_at_0 path "/sbin/" || found_at_0 path "/bin/"
      then true
      else existsb (fun sysProc => strstr path sysProc) systemProcesses
  | None => false
  end.

(** Members that no statement assigns keep the value the automatic
    object started with. *)
Definition analyzeProcess (os : OS) (pid : Z) : ProcessInfo :=
  let info := indeterminate os in
  let taskInfo := proc_pidinfo_TASKALLINFO os pid in
  {| ProcessInfo.pid := pid;
     ProcessInfo.ppid :=
       match taskInfo with
       | Some t =>
           (* uint32_t pbi_ppid, stored in a pid_t *)
           to_int32 (pbi_ppid (pbsd t))
       | None => ProcessInfo.ppid info
       end;
     ProcessInfo.uid :=
       match taskInfo with
       | Some t => pbi_uid (pbsd t) | None => ProcessInfo.uid info
       end;
     ProcessInfo.gid :=
       match taskInfo with
       | Some t => pbi_gid (pbsd t) | None => ProcessInfo.gid info
       end;
     ProcessInfo.startTime :=
       match taskInfo with
       | Some t => pbi_start_tvsec (pbsd t)
       | None => ProcessInfo.startTime info
       end;
     ProcessInfo.memoryUsage :=
       match taskInfo with
       | Some t => pti_resident_size (ptinfo t)
       | None => ProcessInfo.memoryUsage info
       end;
     ProcessInfo.cpuTime :=
       match taskInfo with
       | Some t =>
           to_uint64 (pti_total_user (ptinfo t) + pti_total_system (ptinfo t))
       | None => ProcessInfo.cpuTime info
       end;
     ProcessInfo.executablePath :=
       match proc_pidpath os pid with Some p => p | None => "" end;
     ProcessInfo.commandLine := getProcessCommandLine os pid;
     ProcessInfo.bundleIdentifier := "";
     ProcessInfo.openFiles := getProcessOpenFiles os pid;
     ProcessInfo.networkConnections := getProcessNetworkConnections os pid;
     ProcessInfo.loadedLibraries := getProcessLoadedLibraries os pid;
     ProcessInfo.environmentVariables := getProcessEnvironment os pid;
     ProcessInfo.isSystemProcess := isSystemCriticalProcess os pid;
     ProcessInfo.hasAudioAccess := ProcessInfo.hasAudioAccess info;
     ProcessInfo.hasVideoAccess := ProcessInfo.hasVideoAccess info;
     ProcessInfo.hasNetworkAccess := ProcessInfo.hasNetworkAccess info;
     ProcessInfo.hasFileSystemAccess := ProcessInfo.hasFileSystemAccess info
  |}.

Definition getProcessInfo (os : OS) (c : Controller) (pid : Z)
    : ProcessInfo :=
  match runningProcesses c !! pid with
  | Some info => info
  | None =>
      (* If not in cache, analyze now *)
      analyzeProcess os pid
  end.

End ProcessAnalysis.

(** ** AudioVideoController.cpp *)

Module AudioVideoController.

(** The constructor's member initialisers; the containers start empty. *)
Definition constructor : Controller :=
  {| microphoneEnabled := true;
     cameraEnabled := true;
     database := None;
     databaseMutex := false;
     monitoringEnabled := false;
     runningProcesses := ∅;
     activeConnections := [];
     recentFileAccess := [] |}.

Definition isMicrophoneEnabled (c : Controller) : bool := microphoneEnabled c.
Definition isCameraEnabled (c : Controller) : bool := cameraEnabled c.

(** [opened] is what [sqlite3_open] yields: the store the file holds, in
    which [createDatabaseTables] creates the tables that are missing, or
    [None] when the file cannot be opened. *)
Definition initializeDatabase (opened : option AuditDb) : M bool :=
  pthread_mutex_lock >>
  match opened with
  | None => pthread_mutex_unlock >> ret false
  | Some created =>
      modify (set_database (Some created)) >>
      pthread_mutex_unlock >>
      ret true
  end.

(** The loop over the matching services only writes to the system log. *)
Definition controlAudioDevices (os : OS) (enable : bool) : bool :=
  if decide (IOServiceGetMatchingServices os "IOAudioDevice" = KERN_SUCCESS)
  then true else false.

Definition controlVideoDevices (os : OS) (enable : bool) : bool :=
  if decide (IOServiceGetMatchingServices os "IOVideoDevice" = KERN_SUCCESS)
  then true else false.

Definition disableMicrophone (os : OS) (c : Controller) : bool * Controller :=
  (controlAudioDevices os false, set_microphoneEnabled false c).

Definition enableMicrophone (os : OS) (c : Controller) : bool * Controller :=
  (controlAudioDevices os true, set_microphoneEnabled true c).

Definition disableCamera (os : OS) (c : Controller) : bool * Controller :=
  (controlVideoDevices os false, set_cameraEnabled false c).

Definition enableCamera (os : OS) (c : Controller) : bool * Controller :=
  (controlVideoDevices os true, set_cameraEnabled true c).

Definition audio_device_path (path : string) : bool :=
  strstr path "/dev/audio" || strstr path "coreaudio" ||
  strstr path "AudioUnit" || strstr path "AVAudioEngine".

Definition video_device_path (path : string) : bool :=
  strstr path "/dev/video" || strstr path "AVCapture" ||
  strstr path "CoreMediaIO" || strstr path "VDCAssistant".

(** The callback of this file.  It returns the responses it passes to
    [es_respond_auth_result], in order, and the outcome of the call; it
    changes nothing in the controller. *)
Definition handleESEvent (c : Controller) (message : es_message_t)
    : list es_auth_result_t * outcome unit :=
  let responses :=
    match event_type message with
    | ES_EVENT_TYPE_AUTH_OPEN =>
        match open_file_path (event message) with
        | Some path =>
            if audio_device_path path then
              [ if isMicrophoneEnabled c
                then ES_AUTH_RESULT_ALLOW else ES_AUTH_RESULT_DENY ]
            else if video_device_path path then
              [ if isCameraEnabled c
                then ES_AUTH_RESULT_ALLOW else ES_AUTH_RESULT_DENY ]
            else
              (* Allow other file access *)
              [ ES_AUTH_RESULT_ALLOW ]
        | None => [ ES_AUTH_RESULT_ALLOW ]
        end
    | ES_EVENT_TYPE_NOTIFY_EXEC => []
    | _ =>
        if decide (action_type message = ES_ACTION_TYPE_AUTH)
        then [ ES_AUTH_RESULT_ALLOW ] else []
    end in
  (responses, Returned tt c).

End AudioVideoController.

(** ** ProcessMonitoring.cpp *)

Module ProcessMonitoring.
Import DatabaseLogging ProcessAnalysis.

Definition set_hasAudioAccess (b : bool) (p : ProcessInfo) : ProcessInfo :=
  ProcessInfo.mk (ProcessInfo.pid p) (ProcessInfo.ppid p)
    (ProcessInfo.executablePath p) (ProcessInfo.commandLine p)
    (ProcessInfo.bundleIdentifier p) (ProcessInfo.uid p) (ProcessInfo.gid p)
    (ProcessInfo.startTime p) (ProcessInfo.cpuTime p)
    (ProcessInfo.memoryUsage p) (ProcessInfo.openFiles p)
    (ProcessInfo.networkConnections p) (ProcessInfo.loadedLibraries p)
    (ProcessInfo.environmentVariables p) (ProcessInfo.isSystemProcess p)
    b (ProcessInfo.hasVideoAccess p) (ProcessInfo.hasNetworkAccess p)
    (ProcessInfo.hasFileSystemAccess p).

Definition set_hasVideoAccess (b : bool) (p : ProcessInfo) : ProcessInfo :=
  ProcessInfo.mk (ProcessInfo.pid p) (ProcessInfo.ppid p)
    (ProcessInfo.executablePath p) (ProcessInfo.commandLine p)
    (ProcessInfo.bundleIdentifier p) (ProcessInfo.uid p) (ProcessInfo.gid p)
    (ProcessInfo.startTime p) (ProcessInfo.cpuTime p)
    (ProcessInfo.memoryUsage p) (ProcessInfo.openFiles p)
    (ProcessInfo.networkConnections p) (ProcessInfo.loadedLibraries p)
    (ProcessInfo.environmentVariables p) (ProcessInfo.isSystemProcess p)
    (ProcessInfo.hasAudioAccess p) b (ProcessInfo.hasNetworkAccess p)
    (ProcessInfo.hasFileSystemAccess p).

Definition set_hasNetworkAccess (b : bool) (p : ProcessInfo) : ProcessInfo :=
  ProcessInfo.mk (ProcessInfo.pid p) (ProcessInfo.ppid p)
    (ProcessInfo.executablePath p) (ProcessInfo.commandLine p)
    (ProcessInfo.bundleIdentifier p) (ProcessInfo.uid p) (ProcessInfo.gid p)
    (ProcessInfo.startTime p) (ProcessInfo.cpuTime p)
    (ProcessInfo.memoryUsage p) (ProcessInfo.openFiles p)
    (ProcessInfo.networkConnections p) (ProcessInfo.loadedLibraries p)
    (ProcessInfo.environmentVariables p) (ProcessInfo.isSystemProcess p)
    (ProcessInfo.hasAudioAccess p) (ProcessInfo.hasVideoAccess p) b
    (ProcessInfo.hasFileSystemAccess p).

(** [lib.find(fragment) != std::string::npos] *)
Definition found (s fragment : string) : bool :=
  match string_find s fragment with Some _ => true | None => false end.

(** The body of the loop over [processInfo.loadedLibraries]. *)
Definition classify_library (processInfo : ProcessInfo) (lib : string)
    : ProcessInfo :=
  let processInfo :=
    if found lib "AVFoundation" || found lib "CoreAudio" ||
       found lib "AudioUnit"
    then set_hasAudioAccess true processInfo else processInfo in
  let processInfo :=
    if found lib "AVCapture" || found lib "CoreMediaIO"
    then set_hasVideoAccess true processInfo else processInfo in
  if found lib "Network" || found lib "CFNetwork"
  then set_hasNetworkAccess true processInfo else processInfo.

(** [processInfo] as [handleProcessExec] has built it when it stores it in
    [runningProcesses]. *)
Definition exec_snapshot (os : OS) (message : es_message_t) : ProcessInfo :=
  let pid := audit_token_to_pid (process message) in
  let processInfo := analyzeProcess os pid in
  let processInfo :=
    {| ProcessInfo.pid := pid;
       ProcessInfo.ppid := process_ppid (process message);
       ProcessInfo.executablePath := executable_path (process message);
       ProcessInfo.uid := audit_token_to_uid (process message);
       ProcessInfo.gid := audit_token_to_gid (process message);
       ProcessInfo.startTime := mach_absolute_time os;
       ProcessInfo.commandLine := getProcessCommandLine os pid;
       ProcessInfo.bundleIdentifier :=
         ProcessInfo.bundleIdentifier processInfo;
       ProcessInfo.openFiles := getProcessOpenFiles os pid;
       ProcessInfo.networkConnections := getProcessNetworkConnections os pid;
       ProcessInfo.loadedLibraries := getProcessLoadedLibraries os pid;
       ProcessInfo.environmentVariables := getProcessEnvironment os pid;
       ProcessInfo.memoryUsage := getProcessMemoryUsage os pid;
       ProcessInfo.cpuTime := getProcessCPUTime os pid;
       ProcessInfo.isSystemProcess := isSystemCriticalProcess os pid;
       (* audio/video access capabilities, before the libraries are analysed *)
       ProcessInfo.hasAudioAccess := false;
       ProcessInfo.hasVideoAccess := false;
       ProcessInfo.hasNetworkAccess := false;
       ProcessInfo.hasFileSystemAccess := true |} in
  (* Analyze loaded libraries for capabilities *)
  fold_left classify_library (ProcessInfo.loadedLibraries processInfo)
    processInfo.

Definition handleProcessExec (os : OS) (message : es_message_t) : M unit :=
  let pid := audit_token_to_pid (process message) in
  let processInfo := exec_snapshot os message in
  (* Store process information *)
  modify (fun c =>
    set_runningProcesses (<[pid := processInfo]> (runningProcesses c)) c) >>
  (* Log to database *)
  logProcessEvent processInfo "EXEC".

Definition handleProcessExit (message : es_message_t) : M unit :=
  let pid := audit_token_to_pid (process message) in
  let* known := get (fun c => runningProcesses c !! pid) in
  match known with
  | Some processInfo =>
      logProcessEvent processInfo "EXIT" >>
      modify (fun c =>
        set_runningProcesses (delete pid (runningProcesses c)) c)
  | None => ret tt
  end.

(** [std::vector] operations on [recentFileAccess]. *)
Definition push_back {A} (x : A) (v : list A) : list A := v ++ [x].
(** [v.erase(v.begin() + first, v.begin() + last)] *)
Definition erase {A} (first last : nat) (v : list A) : list A :=
  take first v ++ drop last v.
Definition size {A} (v : list A) : Z := Z.of_nat (length v).

(** The record [handleFileOpen] builds for a path, given the two policy
    flags it reads. *)
Definition open_access (os : OS) (pid : Z) (filePath : string)
    (microphoneEnabled cameraEnabled : bool) : FileAccess :=
  (* sensitive file access *)
  let isAudioDevice :=
    found filePath "/dev/audio" || found filePath "coreaudio" in
  let isVideoDevice :=
    found filePath "/dev/video" || found filePath "AVCapture" in
  if isAudioDevice && negb microphoneEnabled then
    {| FileAccess.pid := pid; FileAccess.filePath := filePath;
       FileAccess.accessType := "OPEN";
       FileAccess.timestamp := mach_absolute_time os;
       FileAccess.wasBlocked := true;
       FileAccess.reason := "Microphone disabled by system extension" |}
  else if isVideoDevice && negb cameraEnabled then
    {| FileAccess.pid := pid; FileAccess.filePath := filePath;
       FileAccess.accessType := "OPEN";
       FileAccess.timestamp := mach_absolute_time os;
       FileAccess.wasBlocked := true;
       FileAccess.reason := "Camera disabled by system extension" |}
  else
    {| FileAccess.pid := pid; FileAccess.filePath := filePath;
       FileAccess.accessType := "OPEN";
       FileAccess.timestamp := mach_absolute_time os;
       FileAccess.wasBlocked := false;
       FileAccess.reason := "" |}.

Definition handleFileOpen (os : OS) (message : es_message_t) : M unit :=
  let pid := audit_token_to_pid (process message) in
  match open_file_path (event message) with
  | Some filePath =>
      let* mic := get microphoneEnabled in
      let* cam := get cameraEnabled in
      let access := open_access os pid filePath mic cam in
      logFileAccess access >>
      modify (fun c =>
        set_recentFileAccess (push_back access (recentFileAccess c)) c) >>
      (* Keep only last 10000 file accesses in memory *)
      modify (fun c =>
        if 10000 <? size (recentFileAccess c)
        then set_recentFileAccess (erase 0 1000 (recentFileAccess c)) c
        else c)
  | None => ret tt
  end.

Definition handleFileWrite (os : OS) (message : es_message_t) : M unit :=
  let pid := audit_token_to_pid (process message) in
  match write_target_path (event message) with
  | Some filePath =>
      logFileAccess
        {| FileAccess.pid := pid; FileAccess.filePath := filePath;
           FileAccess.accessType := "WRITE";
           FileAccess.timestamp := mach_absolute_time os;
           FileAccess.wasBlocked := false;
           FileAccess.reason := "" |}
  | None => ret tt
  end.

Definition handleFileDelete (os : OS) (message : es_message_t) : M unit :=
  let pid := audit_token_to_pid (process message) in
  match unlink_target_path (event message) with
  | Some filePath =>
      logFileAccess
        {| FileAccess.pid := pid; FileAccess.filePath := filePath;
           FileAccess.accessType := "DELETE";
           FileAccess.timestamp := mach_absolute_time os;
           FileAccess.wasBlocked := false;
           FileAccess.reason := "" |}
  | None => ret tt
  end.

Definition handleMmap (os : OS) (message : es_message_t) : M unit :=
  logSystemCall os (audit_token_to_pid (process message))
    "mmap" "Memory mapping event".

(** [snprintf] with [%d]; every string built below fits its buffer. *)
Definition format_d (z : Z) : string := pretty (to_int32 z).

Definition handleSignal (os : OS) (message : es_message_t) : M unit :=
  let pid := audit_token_to_pid (process message) in
  let targetPid := signal_target_pid (event message) in
  let sig := signal_sig (event message) in
  logSystemCall os pid "kill"
    ("signal=" +:+ format_d sig +:+ " target_pid=" +:+ format_d targetPid).

Definition handleFork (os : OS) (message : es_message_t) : M unit :=
  logSystemCall os (audit_token_to_pid (process message))
    "fork" "Process forked".

Definition handleSetuid (os : OS) (message : es_message_t) : M unit :=
  let pid := audit_token_to_pid (process message) in
  let uid := setuid_uid (event message) in
  logSystemCall os pid "setuid" ("new_uid=" +:+ format_d uid).

(** The handler the [switch] of this file's callback selects. *)
Definition route (os : OS) (message : es_message_t) : M unit :=
  match event_type message with
  | ES_EVENT_TYPE_NOTIFY_EXEC => handleProcessExec os message
  | ES_EVENT_TYPE_NOTIFY_EXIT => handleProcessExit message
  | ES_EVENT_TYPE_NOTIFY_FORK => handleFork os message
  | ES_EVENT_TYPE_AUTH_OPEN
  | ES_EVENT_TYPE_NOTIFY_OPEN => handleFileOpen os message
  | ES_EVENT_TYPE_NOTIFY_WRITE => handleFileWrite os message
  | ES_EVENT_TYPE_AUTH_UNLINK
  | ES_EVENT_TYPE_NOTIFY_UNLINK => handleFileDelete os message
  | ES_EVENT_TYPE_NOTIFY_MMAP => handleMmap os message
  | ES_EVENT_TYPE_NOTIFY_SIGNAL => handleSignal os message
  | ES_EVENT_TYPE_NOTIFY_SETUID => handleSetuid os message
  | _ => ret tt
  end.

(** The callback of this file: the selected handler runs, then the one
    statement after the [switch] answers an authorization message.  A
    handler that blocks never reaches that statement. *)
Definition handleESEvent (os : OS) (c : Controller) (message : es_message_t)
    : list es_auth_result_t * outcome unit :=
  match route os message c with
  | Returned _ c' =>
      (* Always allow events to proceed unless specifically blocking *)
      (if decide (action_type message = ES_ACTION_TYPE_AUTH)
       then [ ES_AUTH_RESULT_ALLOW ] else [],
       Returned tt c')
  | Blocked c' => ([], Blocked c')
  end.

End ProcessMonitoring.

(** ** ProcessAnalysis.cpp: the argument block

    [getProcessCommandLine] and [getProcessEnvironment] read the block that
    [sysctl] fills for [KERN_PROCARGS2].  [ProcessAnalysis] above takes
    their results as observations; here are their bodies, over the bytes of
    the block.  A pointer into the block is the list of the bytes from it
    on. *)

Module ProcArgs.

Definition NUL : ascii := Ascii.zero.

Definition is_nul (a : ascii) : bool := Ascii.eqb a NUL.

(** [*ptr].  The source never reads past [buffer + size] in
    [getProcessEnvironment]; where [getProcessCommandLine] reads past its
    array the source is undefined, and the read yields [NUL] here. *)
Definition deref (ptr : list ascii) : ascii :=
  match ptr with a :: _ => a | [] => NUL end.

(** The C string at [ptr], as [std::string(ptr)] and [cmdline += ptr] read
    it: the characters before the first [NUL]. *)
Fixpoint c_str (ptr : list ascii) : string :=
  match ptr with
  | [] => EmptyString
  | a :: ptr' => if is_nul a then EmptyString else String a (c_str ptr')
  end.

(** [while ( *args && args < pathBuffer + size) args++; args++;] with [room]
    the distance from [args] to [pathBuffer + size]. *)
Fixpoint next_string (args : list ascii) (room : Z) : list ascii * Z :=
  match args with
  | [] => ([], room - 1)
  | a :: args' =>
      if negb (is_nul a) && (0 <? room) then next_string args' (room - 1)
      else (args', room - 1)
  end.

(** The loop that builds [cmdline]; every iteration moves [args] forward, so
    [fuel] bounds the iterations by the bytes that remain. *)
Fixpoint arguments (fuel : nat) (args : list ascii) (room : Z)
    (cmdline : string) : string :=
  match fuel with
  | O => cmdline
  | S fuel' =>
      if (0 <? room) && negb (is_nul (deref args)) then
        let cmdline :=
          match cmdline with
          | EmptyString => cmdline
          | _ => cmdline +:+ " "
          end in
        let cmdline := cmdline +:+ c_str args in
        let '(args, room) := next_string args room in
        arguments fuel' args room cmdline
      else cmdline
  end.

(** [sysctl] is [None] when the call fails, and otherwise the array
    [pathBuffer] and the [size] the call stored. *)
Definition getProcessCommandLine (sysctl : option (list ascii * Z)) : string :=
  match sysctl with
  | Some (pathBuffer, size) =>
      (* Skip argc, then skip to first argument *)
      let '(args, room) := next_string (drop 4 pathBuffer) (size - 4) in
      arguments (length args) args room EmptyString
  | None => EmptyString
  end.

(** [while (ptr < buffer + size && *ptr) ptr++; ptr++;] on a buffer of
    exactly [size] bytes. *)
Fixpoint skip_string (ptr : list ascii) : list ascii :=
  match ptr with
  | [] => []
  | a :: ptr' => if is_nul a then ptr' else skip_string ptr'
  end.

(** The loop under [// Skip arguments]. *)
Fixpoint skip_arguments (fuel : nat) (ptr : list ascii) : list ascii :=
  match fuel with
  | O => ptr
  | S fuel' =>
      match ptr with
      | a :: _ =>
          if is_nul a then ptr else skip_arguments fuel' (skip_string ptr)
      | [] => ptr
      end
  end.

(** [env[key] = value] for the [KEY=VALUE] string [envVar]; a string with
    no ['='] is dropped. *)
Definition record_variable (envVar : string) (env : gmap string string)
    : gmap string string :=
  match string_find envVar "=" with
  | Some equals =>
      let key := String.substring 0 equals envVar in
      let value :=
        String.substring (S equals) (String.length envVar - S equals) envVar in
      <[key := value]> env
  | None => env
  end.

(** The loop under [// Now we're at environment variables]. *)
Fixpoint environment (fuel : nat) (ptr : list ascii)
    (env : gmap string string) : gmap string string :=
  match fuel with
  | O => env
  | S fuel' =>
      match ptr with
      | a :: _ =>
          if is_nul a then env
          else environment fuel' (skip_string ptr)
                 (record_variable (c_str ptr) env)
      | [] => env
      end
  end.

(** [sysctl] is [None] when either call fails, and otherwise the [size]
    bytes the second call stored in [buffer]. *)
Definition getProcessEnvironment (sysctl : option (list ascii))
    : gmap string string :=
  match sysctl with
  | Some buffer =>
      (* Skip argc and arguments to get to environment *)
      let ptr := drop 4 buffer in
      let ptr := skip_string ptr in
      let ptr := skip_arguments (S (length ptr)) ptr in
      environment (S (length ptr)) ptr ∅
  | None => ∅
  end.

End ProcArgs.

(** ** ProcessAnalysis.cpp: process discovery *)

Module ProcessDiscovery.
Import DatabaseLogging ProcessAnalysis.

(** One iteration of the loop of [scanRunningProcesses]. *)
Definition discover (os : OS) (pid : Z) : M unit :=
  let* known := get (fun c => runningProcesses c !! pid) in
  match known with
  | Some _ =>
      (* Skip if we already know about this process *)
      ret tt
  | None =>
      (* Analyze new process *)
      let info := analyzeProcess os pid in
      modify (fun c =>
        set_runningProcesses (<[pid := info]> (runningProcesses c)) c) >>
      logProcessEvent info "DISCOVERED"
  end.

(** [procs] is [None] when either [sysctl] call for [KERN_PROC_ALL] fails,
    and otherwise the process ids of the entries it returned, in order. *)
Definition scanRunningProcesses (os : OS) (procs : option (list Z))
    : M unit :=
  match procs with
  | Some pids => for_each pids (discover os)
  | None => ret tt
  end.

(** [parseNetstat] returns the vector it declares, to which it adds
    nothing. *)
Definition parseNetstat : list NetworkConnection := [].

Definition scanNetworkConnections : M unit :=
  for_each parseNetstat logNetworkEvent.

(** [std::map] orders its entries by key. *)
Definition pid_le (p q : Z * ProcessInfo) : Prop := p.1 ≤ q.1.

Global Instance pid_le_dec p q : Decision (pid_le p q).
Proof. unfold pid_le. apply _. Defined.

(** The entries of [runningProcesses] as its iterator visits them. *)
Definition in_key_order (m : gmap Z ProcessInfo) : list (Z * ProcessInfo) :=
  merge_sort pid_le (map_to_list m).

Definition getAllProcesses (c : Controller) : list ProcessInfo :=
  map snd (in_key_order (runningProcesses c)).

End ProcessDiscovery.

(** ** main.cpp: the command channel *)

Module Main.

Inductive xpc_value :=
  | xpc_bool (b : bool)
  | xpc_string (s : string).

(** What the connection's event handler receives: a dictionary, or an
    object of another type. *)
Inductive xpc_object :=
  | xpc_dictionary (entries : gmap string xpc_value)
  | xpc_other.

Definition xpc_dictionary_get_string (entries : gmap string xpc_value)
    (key : string) : option string :=
  match entries !! key with
  | Some (xpc_string s) => Some s
  | _ => None
  end.

(** The handler set on each connection.  It returns the reply it sends, if
    it sends one, and the controller it leaves. *)
Definition message_handler (os : OS) (message : xpc_object) (c : Controller)
    : option (gmap string xpc_value) * Controller :=
  match message with
  | xpc_dictionary entries =>
      match xpc_dictionary_get_string entries "command" with
      | None => (None, c)
      | Some command =>
          if String.eqb command "disable_microphone" then
            let '(success, c') := AudioVideoController.disableMicrophone os c in
            (Some (<["success" := xpc_bool success]> ∅), c')
          else if String.eqb command "enable_microphone" then
            let '(success, c') := AudioVideoController.enableMicrophone os c in
            (Some (<["success" := xpc_bool success]> ∅), c')
          else if String.eqb command "disable_camera" then
            let '(success, c') := AudioVideoController.disableCamera os c in
            (Some (<["success" := xpc_bool success]> ∅), c')
          else if String.eqb command "enable_camera" then
            let '(success, c') := AudioVideoController.enableCamera os c in
            (Some (<["success" := xpc_bool success]> ∅), c')
          else if String.eqb command "get_status" then
            (Some (<["success" := xpc_bool true]>
                  (<["camera_enabled" :=
                       xpc_bool (AudioVideoController.isCameraEnabled c)]>
                  (<["microphone_enabled" :=
                       xpc_bool (AudioVideoController.isMicrophoneEnabled c)]>
                   ∅))),
             c)
          else
            (Some (<["error" := xpc_string "Unknown command"]>
                  (<["success" := xpc_bool false]> ∅)),
             c)
      end
  | xpc_other => (None, c)
  end.

(** A dictionary that holds only a command. *)
Definition command_message (command : string) : xpc_object :=
  xpc_dictionary (<["command" := xpc_string command]> ∅).

End Main.

(** ** Vocabulary of the specification *)

Import DatabaseLogging ProcessAnalysis.

(** ALLOW iff the flag is set. *)
Definition allow_iff (enabled : bool) : es_auth_result_t :=
  if enabled then ES_AUTH_RESULT_ALLOW else ES_AUTH_RESULT_DENY.

(** The audio and video device markers of the device-open classification
    in [AudioVideoController.cpp]. *)
Definition has_audio_marker (path : string) : Prop :=
  Substring "/dev/audio" path ∨ Substring "coreaudio" path ∨
  Substring "AudioUnit" path ∨ Substring "AVAudioEngine" path.

Definition has_video_marker (path : string) : Prop :=
  Substring "/dev/video" path ∨ Substring "AVCapture" path ∨
  Substring "CoreMediaIO" path ∨ Substring "VDCAssistant" path.

(** The framework name fragments of the capability classification. *)
Definition audio_fragment (lib : string) : Prop :=
  Substring "AVFoundation" lib ∨ Substring "CoreAudio" lib ∨
  Substring "AudioUnit" lib.

Definition video_fragment (lib : string) : Prop :=
  Substring "AVCapture" lib ∨ Substring "CoreMediaIO" lib.

Definition network_fragment (lib : string) : Prop :=
  Substring "Network" lib ∨ Substring "CFNetwork" lib.

(** The rows of two tables of the audit store; a closed store has none. *)
Definition stored_file_access (c : Controller) : list file_access.row :=
  match database c with Some db => tbl_file_access db | None => [] end.

Definition stored_network_connections (c : Controller)
    : list network_connections.row :=
  match database c with Some db => tbl_network_connections db | None => [] end.

Definition unblocked (r : file_access.row) : Prop :=
  file_access.was_blocked r = 0 ∧ file_access.reason r = ""%string.

(** [sel] is the [n] most recent of [rows], newest first. *)
Definition most_recent {Row} (timestamp : Row → Z) (n : nat)
    (rows sel : list Row) : Prop :=
  length sel = Nat.min n (length rows) ∧
  StronglySorted (newer_first timestamp) sel ∧
  ∃ rest, rows ≡ₚ sel ++ rest ∧
    ∀ r r', r ∈ sel → r' ∈ rest → timestamp r' ≤ timestamp r.

(** A member function leaves every controller [R]-related to the one it
    started from, whether it returns or blocks. *)
Definition respects (R : relation Controller) {A} (m : M A) : Prop :=
  ∀ c, R c (final (m c)).

(** Nothing but the audit store and its mutex changes, and the
    [file_access] table only grows, by rows that are not marked blocked. *)
Definition logs_unblocked (c c' : Controller) : Prop :=
  microphoneEnabled c' = microphoneEnabled c ∧
  cameraEnabled c' = cameraEnabled c ∧
  runningProcesses c' = runningProcesses c ∧
  recentFileAccess c' = recentFileAccess c ∧
  ∃ new, stored_file_access c' = stored_file_access c ++ new ∧
         Forall unblocked new.

(** As [logs_unblocked], but the registry may change too. *)
Definition keeps_recent_unblocked (c c' : Controller) : Prop :=
  recentFileAccess c' = recentFileAccess c ∧
  ∃ new, stored_file_access c' = stored_file_access c ++ new ∧
         Forall unblocked new.

Definition bounded_recent (c : Controller) : Prop :=
  ProcessMonitoring.size (recentFileAccess c) ≤ 10000.

(** The controllers one thread leaves behind after each message of a
    sequence it handles with the callback of [ProcessMonitoring.cpp]; a
    thread that blocks handles no further message. *)
Fixpoint controllers_after (events : list (OS * es_message_t))
    (c : Controller) : list Controller :=
  match events with
  | [] => []
  | (os, message) :: events' =>
      match snd (ProcessMonitoring.handleESEvent os c message) with
      | Returned _ c' => c' :: controllers_after events' c'
      | Blocked c' => [c']
      end
  end.

(** ** Sample inputs *)

Definition zeroed : ProcessInfo :=
  ProcessInfo.mk 0 0 "" "" "" 0 0 0 0 0 [] [] [] [] false false false false
    false.

(** A system on which no process can be inspected and IOKit answers. *)
Definition quiet_os : OS :=
  {| mach_absolute_time := 4242;
     proc_pidinfo_TASKALLINFO := fun _ => None;
     proc_pidinfo_TASKINFO := fun _ => None;
     proc_pidpath := fun _ => None;
     observed_command_line := fun _ => ""%string;
     observed_open_files := fun _ => [];
     observed_sockets := fun _ => [];
     observed_images := fun _ => [];
     observed_environment := fun _ => [];
     IOServiceGetMatchingServices := fun _ => KERN_SUCCESS;
     indeterminate := zeroed |}.

(** The same system when the IOKit lookup fails with [KERN_FAILURE]. *)
Definition iokit_down_os : OS :=
  {| mach_absolute_time := 4242;
     proc_pidinfo_TASKALLINFO := fun _ => None;
     proc_pidinfo_TASKINFO := fun _ => None;
     proc_pidpath := fun _ => None;
     observed_command_line := fun _ => ""%string;
     observed_open_files := fun _ => [];
     observed_sockets := fun _ => [];
     observed_images := fun _ => [];
     observed_environment := fun _ => [];
     IOServiceGetMatchingServices := fun _ => 5;
     indeterminate := zeroed |}.

(** A system on which process 500 has loaded AVFoundation and holds one
    file open. *)
Definition recorder_os : OS :=
  {| mach_absolute_time := 4242;
     proc_pidinfo_TASKALLINFO := fun _ => None;
     proc_pidinfo_TASKINFO := fun _ => None;
     proc_pidpath := fun _ => None;
     observed_command_line := fun _ => "rec -o out.wav"%string;
     observed_open_files := fun _ => [ "/tmp/out.wav"%string ];
     observed_sockets := fun _ => [];
     observed_images := fun _ =>
       [ "/usr/lib/libSystem.B.dylib"; "/usr/lib/libAVFoundation.dylib" ]%string;
     observed_environment := fun _ => [];
     IOServiceGetMatchingServices := fun _ => KERN_SUCCESS;
     indeterminate := zeroed |}.

Definition process_500 : es_process_t :=
  {| audit_token_to_pid := 500; audit_token_to_uid := 501;
     audit_token_to_gid := 20; process_ppid := 1;
     executable_path := "/usr/local/bin/rec" |}.

(** A message of type [t] from process 500 that carries [path] in each of
    the path members of its event. *)
Definition message_on (t : es_event_type_t) (path : es_string_token_t)
    : es_message_t :=
  {| event_type := t;
     action_type := es_event_action t;
     process := process_500;
     event := {| open_file_path := path; exec_target_path := "/usr/local/bin/rec";
                 write_target_path := path; unlink_target_path := path;
                 signal_sig := 15; signal_target_pid := 1;
                 fork_child_pid := 501; setuid_uid := 0 |} |}.

(** A controller whose audit store is open and empty. *)
Definition opened : Controller :=
  final (AudioVideoController.initializeDatabase (Some empty_db)
           AudioVideoController.constructor).

(** The same after [disableMicrophone]. *)
Definition microphone_off : Controller :=
  snd (AudioVideoController.disableMicrophone quiet_os opened).

(** A controller with the camera disabled and the microphone enabled. *)
Definition camera_off : Controller :=
  snd (AudioVideoController.disableCamera quiet_os opened).

(** A path that contains a video marker ([CoreMediaIO]) and an audio marker
    ([coreaudio]). *)
Definition both_markers_path : string :=
  "/Library/CoreMediaIO/Plug-Ins/DAL/coreaudio.plist".

Definition sample_access : FileAccess :=
  {| FileAccess.pid := 500; FileAccess.filePath := "/tmp/a";
     FileAccess.accessType := "OPEN"; FileAccess.timestamp := 1;
     FileAccess.wasBlocked := false; FileAccess.reason := "" |}.

(** A controller whose recent-access buffer is full. *)
Definition full_buffer : Controller :=
  set_recentFileAccess (replicate (Z.to_nat 10000) sample_access) opened.

(** A snapshot with no open file, cached for process 500. *)
Definition cached_500 : Controller :=
  set_runningProcesses
    (<[500 := ProcessAnalysis.analyzeProcess quiet_os 500]> ∅) opened.

(** Three opens logged out of timestamp order. *)
Definition history_sample : Controller :=
  final (for_each [5; 9; 7] (fun t =>
           logFileAccess
             {| FileAccess.pid := 500; FileAccess.filePath := "/tmp/a";
                FileAccess.accessType := "OPEN"; FileAccess.timestamp := t;
                FileAccess.wasBlocked := false; FileAccess.reason := "" |})
         opened).

(** ** Vocabulary of the mutex discipline *)

(** A call that always returns and leaves the mutex as it found it. *)
Definition steady {A} (m : M A) : Prop :=
  ∀ c, ∃ a c', m c = Returned a c' ∧ databaseMutex c' = databaseMutex c.

(** A call that always returns with the mutex released. *)
Definition releases {A} (m : M A) : Prop :=
  ∀ c, ∃ a c', m c = Returned a c' ∧ databaseMutex c' = false.

(** A call that returns, with the mutex free again, whenever the calling
    thread does not hold the mutex on entry. *)
Definition returns_free {A} (m : M A) : Prop :=
  ∀ c, databaseMutex c = false →
    ∃ a c', m c = Returned a c' ∧ databaseMutex c' = false.

(** ** Vocabulary for the argument block *)

(** The characters of a string, and the layout of strings in a block: each
    followed by its terminator. *)
Definition chars (s : string) : list ascii := list_ascii_of_string s.

Definition nul_free (s : string) : Prop :=
  Forall (fun a => ProcArgs.is_nul a = false) (chars s).

Definition c_strings (l : list string) : list ascii :=
  concat (map (fun s => chars s ++ [ProcArgs.NUL]) l).

(** A block for [/bin/ls] run as [ls -l], with no padding after the path. *)
Definition ls_block : list ascii :=
  [ "002"; "000"; "000"; "000" ]%char ++ chars "/bin/ls" ++
  ProcArgs.NUL :: c_strings [ "ls"; "-l" ]%string ++ [ ProcArgs.NUL ].

(** ** Vocabulary for the command channel and for what calls leave alone *)

(** The two flags are what they were. *)
Definition same_policy (c c' : Controller) : Prop :=
  microphoneEnabled c' = microphoneEnabled c ∧
  cameraEnabled c' = cameraEnabled c.

(** The two flags a reply to [get_status] carries. *)
Definition reported_status (reply : option (gmap string Main.xpc_value))
    : option (bool * bool) :=
  match reply with
  | Some entries =>
      match entries !! "microphone_enabled"%string,
            entries !! "camera_enabled"%string with
      | Some (Main.xpc_bool mic), Some (Main.xpc_bool cam) => Some (mic, cam)
      | _, _ => None
      end
  | None => None
  end.

(** What [get_status] reports once [command] has been handled. *)
Definition status_after (os os' : OS) (command : string) (c : Controller)
    : option (bool * bool) :=
  reported_status
    (Main.message_handler os' (Main.command_message "get_status")
       (Main.message_handler os (Main.command_message command) c).2).1.

Definition known_commands : list string :=
  [ "disable_microphone"; "enable_microphone"; "disable_camera";
    "enable_camera"; "get_status" ]%string.

(** Process discovery leaves the policy and the recent-access buffer alone
    and keeps every snapshot the registry holds. *)
Definition discovery_only (c c' : Controller) : Prop :=
  same_policy c c' ∧
  recentFileAccess c' = recentFileAccess c ∧
  runningProcesses c ⊆ runningProcesses c'.

(** While the mutex is held, it stays held and [file_access] is not
    written. *)
Definition locked_store_kept (c c' : Controller) : Prop :=
  databaseMutex c = true →
  databaseMutex c' = true ∧ stored_file_access c' = stored_file_access c.

(** A system on which process 500 holds a file open, as [recorder_os], and
    the process list shows processes 1 and 500. *)
Definition listed_pids : list Z := [1; 500].

(** A system on which process 500 alone holds a file open. *)
Definition one_recorder_os : OS :=
  {| mach_absolute_time := 4242;
     proc_pidinfo_TASKALLINFO := fun _ => None;
     proc_pidinfo_TASKINFO := fun _ => None;
     proc_pidpath := fun _ => None;
     observed_command_line := fun _ => ""%string;
     observed_open_files := fun pid =>
       if pid =? 500 then [ "/tmp/out.wav"%string ] else [];
     observed_sockets := fun _ => [];
     observed_images := fun _ => [];
     observed_environment := fun _ => [];
     IOServiceGetMatchingServices := fun _ => KERN_SUCCESS;
     indeterminate := zeroed |}.

(** The audit store is open afterwards if it was open before. *)
Definition store_open_kept (c c' : Controller) : Prop :=
  is_Some (database c) → is_Some (database c').

(** The registry is what it was. *)
Definition registry_kept (c c' : Controller) : Prop :=
  runningProcesses c' = runningProcesses c.

(** [prefix] starts [s]. *)
Definition StartsWith (prefix s : string) : Prop :=
  ∃ post : string, s = prefix +:+ post.

(** The insertions that the logging functions reached from a security
    message or from process discovery perform. *)
Inductive handler_write : (AuditDb → AuditDb) → Prop :=
  | write_process_events r : handler_write (insert_process_events r)
  | write_file_access r : handler_write (insert_file_access r)
  | write_system_calls r : handler_write (insert_system_calls r)
  | write_loaded_libraries r : handler_write (insert_loaded_libraries r)
  | write_environment_vars r : handler_write (insert_environment_vars r).

(** [network_connections] holds the rows it held. *)
Definition network_kept (c c' : Controller) : Prop :=
  stored_network_connections c' = stored_network_connections c.

(** * Verification *)

(** ** Substring search *)

Lemma prefix_spec (needle s : string) :
  String.prefix needle s = true ↔ ∃ post, s = needle +:+ post.
Proof.
  revert s. induction needle as [|a needle IH]; intros s.
  - split; [intros _; by exists s | by destruct s].
  - destruct s as [|b s]; simpl.
    + split; [done | intros [post Hpost]; discriminate].
    + destruct (Ascii.ascii_dec a b) as [->|Hab].
      * rewrite IH. split; intros [post Hpost]; exists post.
        -- by rewrite Hpost.
        -- by injection Hpost.
      * split; [done | intros [post Hpost]; injection Hpost; congruence].
Qed.

Lemma Substring_cons (needle : string) (a : ascii) (s : string) :
  Substring needle (String a s) ↔
  String.prefix needle (String a s) = true ∨ Substring needle s.
Proof.
  split.
  - intros [[|b pre] [post Heq]]; simpl in Heq.
    + left. apply prefix_spec. by exists post.
    + right. injection Heq as _ ->. by exists pre, post.
  - intros [Hpre | [pre [post ->]]].
    + apply prefix_spec in Hpre as [post ->]. by exists ""%string, post.
    + by exists (String a pre), post.
Qed.

Lemma find_from_spec (needle s : string) (pos : nat) :
  is_Some (find_from needle s pos) ↔ Substring needle s.
Proof.
  revert pos. induction s as [|a s IH]; intros pos.
  - change (find_from needle "" pos)
      with (if String.prefix needle "" then Some pos else None).
    destruct (String.prefix needle "") eqn:Hpre.
    + split; [intros _ | intros _; by eexists].
      apply prefix_spec in Hpre as [post ->]. by exists ""%string, post.
    + split; [by intros [? ?] |].
      intros [pre [post Heq]]. exfalso.
      destruct pre; [|discriminate]. simpl in Heq.
      destruct needle; discriminate.
  - change (find_from needle (String a s) pos)
      with (if String.prefix needle (String a s) then Some pos
            else find_from needle s (S pos)).
    rewrite Substring_cons.
    destruct (String.prefix needle (String a s)) eqn:Hpre.
    + split; [by left | intros _; by eexists].
    + rewrite IH. split; [by right | by intros [? | ?]].
Qed.

Lemma strstr_spec (haystack needle : string) :
  strstr haystack needle = true ↔ Substring needle haystack.
Proof.
  unfold strstr, string_find. rewrite <- (find_from_spec needle haystack 0).
  destruct (find_from needle haystack 0); split; try done; by intros [? ?].
Qed.

Lemma found_spec (s fragment : string) :
  ProcessMonitoring.found s fragment = true ↔ Substring fragment s.
Proof. apply strstr_spec. Qed.

Lemma audio_device_path_spec (path : string) :
  AudioVideoController.audio_device_path path = true ↔ has_audio_marker path.
Proof.
  unfold AudioVideoController.audio_device_path, has_audio_marker.
  rewrite !orb_true_iff, !strstr_spec. tauto.
Qed.

Lemma video_device_path_spec (path : string) :
  AudioVideoController.video_device_path path = true ↔ has_video_marker path.
Proof.
  unfold AudioVideoController.video_device_path, has_video_marker.
  rewrite !orb_true_iff, !strstr_spec. tauto.
Qed.

(** ** Calls that return *)

Lemma steady_ret {A} (a : A) : steady (ret a).
Proof. intros c. by exists a, c. Qed.

Lemma steady_get {A} (f : Controller → A) : steady (get f).
Proof. intros c. by exists (f c), c. Qed.

Lemma steady_modify (f : Controller → Controller) :
  (∀ c, databaseMutex (f c) = databaseMutex c) → steady (modify f).
Proof. intros Hf c. exists tt, (f c). by rewrite Hf. Qed.

Lemma steady_bind {A B} (m : M A) (k : A → M B) :
  steady m → (∀ a, steady (k a)) → steady (bind m k).
Proof.
  intros Hm Hk c. destruct (Hm c) as (a & c1 & Hrun & Hmx).
  destruct (Hk a c1) as (b & c2 & Hrun' & Hmx').
  exists b, c2. unfold bind. rewrite Hrun, Hrun'. split; congruence.
Qed.

Lemma steady_for_each {A} (l : list A) (body : A → M unit) :
  (∀ x, steady (body x)) → steady (for_each l body).
Proof.
  intros Hbody. induction l as [|x l IH]; simpl.
  - apply steady_ret.
  - apply steady_bind; auto.
Qed.

Lemma steady_sqlite3_insert (ins : AuditDb → AuditDb) :
  steady (sqlite3_insert ins).
Proof. apply steady_modify. intros c. by destruct (database c). Qed.

Lemma steady_returns_free {A} (m : M A) : steady m → returns_free m.
Proof.
  intros Hm c Hfree. destruct (Hm c) as (a & c' & Hrun & Hmx).
  exists a, c'. split; congruence.
Qed.

Lemma returns_free_bind {A B} (m : M A) (k : A → M B) :
  returns_free m → (∀ a, returns_free (k a)) → returns_free (bind m k).
Proof.
  intros Hm Hk c Hfree. destruct (Hm c Hfree) as (a & c1 & Hrun & Hmx).
  destruct (Hk a c1 Hmx) as (b & c2 & Hrun' & Hmx').
  exists b, c2. unfold bind. by rewrite Hrun, Hrun'.
Qed.

Lemma releases_unlock : releases pthread_mutex_unlock.
Proof. intros c. by exists tt, (set_databaseMutex false c). Qed.

Lemma releases_unlock_ret {A} (a : A) : releases (pthread_mutex_unlock >> ret a).
Proof. intros c. by exists a, (set_databaseMutex false c). Qed.

(** A critical section whose body takes no lock returns, and has released
    the mutex, when it is entered with the mutex free. *)
Lemma critical_section_returns {A B} (body : M A) (tail : A → M B) :
  steady body → (∀ a, releases (tail a)) →
  returns_free (pthread_mutex_lock >> bind body tail).
Proof.
  intros Hbody Htail c Hfree.
  destruct (Hbody (set_databaseMutex true c)) as (a & c1 & Hrun & _).
  destruct (Htail a c1) as (b & c2 & Hrun' & Hmx).
  exists b, c2. unfold bind, pthread_mutex_lock.
  by rewrite Hfree, Hrun, Hrun'.
Qed.

(** Taking the mutex a second time. *)
Lemma relock_blocks (c : Controller) :
  databaseMutex c = true → pthread_mutex_lock c = Blocked c.
Proof. intros Hheld. unfold pthread_mutex_lock. by rewrite Hheld. Qed.

Lemma logFileAccess_free (access : FileAccess) (c : Controller) :
  databaseMutex c = false →
  logFileAccess access c =
    Returned tt
      (set_database (insert_file_access (file_access_row access) <$> database c) c).
Proof.
  intros Hfree. destruct c as [mic cam db mx mon procs conns recent].
  simpl in Hfree. subst mx.
  unfold logFileAccess, bind, pthread_mutex_lock, pthread_mutex_unlock,
    sqlite3_insert, modify. simpl. by destruct db.
Qed.

Lemma logFileAccess_held (access : FileAccess) (c : Controller) :
  databaseMutex c = true → logFileAccess access c = Blocked c.
Proof.
  intros Hheld. unfold logFileAccess, bind. by rewrite relock_blocks.
Qed.

Lemma logFileAccess_returns (access : FileAccess) :
  returns_free (logFileAccess access).
Proof.
  intros c Hfree. rewrite logFileAccess_free by done.
  eexists _, _. split; [done|]. done.
Qed.

(** [logProcessEvent] holds the mutex while it calls [logFileAccess] for
    the first open file of the snapshot: with an open store it never
    returns. *)
Lemma logProcessEvent_blocks (process : ProcessInfo) (event : string)
    (c : Controller) :
  databaseMutex c = false → is_Some (database c) →
  ProcessInfo.openFiles process ≠ [] →
  returned (logProcessEvent process event c) = false.
Proof.
  intros Hfree [db Hdb] Hfiles.
  destruct (ProcessInfo.openFiles process) as [|file files] eqn:Hopen; [done|].
  destruct c as [mic cam db' mx mon procs conns recent].
  simpl in Hfree, Hdb. subst mx db'.
  unfold logProcessEvent, bind, pthread_mutex_lock, get, sqlite3_insert,
    modify. simpl. by rewrite Hopen.
Qed.

Lemma logProcessEvent_returns (process : ProcessInfo) (event : string) :
  ProcessInfo.openFiles process = [] →
  returns_free (logProcessEvent process event).
Proof.
  intros Hopen. unfold logProcessEvent. rewrite Hopen.
  apply critical_section_returns; [|intros _; apply releases_unlock].
  apply steady_bind; [apply steady_get|]. intros [db|]; [|apply steady_ret].
  repeat (apply steady_bind; [|intros _]);
    auto using steady_sqlite3_insert, steady_for_each, steady_ret.
  apply (steady_ret tt).
Qed.

Lemma logSystemCall_returns (os : OS) (pid : Z) (syscall args : string) :
  returns_free (logSystemCall os pid syscall args).
Proof.
  apply critical_section_returns;
    auto using steady_sqlite3_insert, releases_unlock.
Qed.

(** ** What a call leaves unchanged *)

Section respects.
Context (R : relation Controller) `{!PreOrder R}.

Lemma respects_ret {A} (a : A) : respects R (ret a).
Proof. intros c. simpl. reflexivity. Qed.

Lemma respects_get {A} (f : Controller → A) : respects R (get f).
Proof. intros c. simpl. reflexivity. Qed.

Lemma respects_modify (f : Controller → Controller) :
  (∀ c, R c (f c)) → respects R (modify f).
Proof. intros Hf c. apply Hf. Qed.

Lemma respects_bind {A B} (m : M A) (k : A → M B) :
  respects R m → (∀ a, respects R (k a)) → respects R (bind m k).
Proof.
  intros Hm Hk c. specialize (Hm c). unfold bind.
  destruct (m c) as [a c1|c1]; simpl in *; [|done].
  transitivity c1; [done | apply Hk].
Qed.

Lemma respects_for_each {A} (l : list A) (body : A → M unit) :
  (∀ x, respects R (body x)) → respects R (for_each l body).
Proof.
  intros Hbody. induction l as [|x l IH]; simpl.
  - apply respects_ret.
  - apply respects_bind; auto.
Qed.

Lemma respects_lock :
  (∀ c, R c (set_databaseMutex true c)) → respects R pthread_mutex_lock.
Proof.
  intros Hset c. unfold pthread_mutex_lock.
  destruct (databaseMutex c); simpl; [reflexivity | apply Hset].
Qed.
End respects.

Lemma respects_weaken (R R' : relation Controller) {A} (m : M A) :
  (∀ c c', R c c' → R' c c') → respects R m → respects R' m.
Proof. intros Hsub Hm c. apply Hsub, Hm. Qed.

Global Instance logs_unblocked_preorder : PreOrder logs_unblocked.
Proof.
  split.
  - intros c. repeat split. exists []. by rewrite app_nil_r.
  - intros c1 c2 c3 (Hm & Hc & Hp & Hr & new & Hnew & Hun)
      (Hm' & Hc' & Hp' & Hr' & new' & Hnew' & Hun').
    repeat split; try congruence.
    exists (new ++ new'). split; [|by apply Forall_app].
    by rewrite Hnew', Hnew, app_assoc.
Qed.

Global Instance keeps_recent_unblocked_preorder :
  PreOrder keeps_recent_unblocked.
Proof.
  split.
  - intros c. split; [done|]. exists []. by rewrite app_nil_r.
  - intros c1 c2 c3 (Hr & new & Hnew & Hun) (Hr' & new' & Hnew' & Hun').
    split; [congruence|].
    exists (new ++ new'). split; [|by apply Forall_app].
    by rewrite Hnew', Hnew, app_assoc.
Qed.

Lemma logs_unblocked_keeps_recent (c c' : Controller) :
  logs_unblocked c c' → keeps_recent_unblocked c c'.
Proof. intros (_ & _ & _ & Hr & Hnew). by split. Qed.

Lemma logs_unblocked_mutex (b : bool) (c : Controller) :
  logs_unblocked c (set_databaseMutex b c).
Proof. repeat split. exists []. by rewrite app_nil_r. Qed.

(** One step through the structure of a member function. *)
Ltac respects_step :=
  first
    [ apply respects_ret; apply _
    | apply respects_get; apply _
    | apply respects_bind; [apply _| |intros ?]
    | apply respects_for_each; [apply _|intros ?] ].

Lemma respects_insert (ins : AuditDb → AuditDb) :
  (∀ db, ∃ new, tbl_file_access (ins db) = tbl_file_access db ++ new ∧
                Forall unblocked new) →
  respects logs_unblocked (sqlite3_insert ins).
Proof.
  intros Hins. apply respects_modify. intros c.
  destruct (database c) as [db|] eqn:Hdb; [|reflexivity].
  repeat split. unfold stored_file_access. simpl. rewrite Hdb. apply Hins.
Qed.

Lemma respects_insert_elsewhere (ins : AuditDb → AuditDb) :
  (∀ db, tbl_file_access (ins db) = tbl_file_access db) →
  respects logs_unblocked (sqlite3_insert ins).
Proof.
  intros Hins. apply respects_insert. intros db. exists [].
  by rewrite Hins, app_nil_r.
Qed.

Lemma respects_unlock : respects logs_unblocked pthread_mutex_unlock.
Proof. apply respects_modify. apply logs_unblocked_mutex. Qed.

Lemma respects_mutex_lock : respects logs_unblocked pthread_mutex_lock.
Proof. apply respects_lock; [apply _|]. apply logs_unblocked_mutex. Qed.

Lemma respects_logFileAccess (access : FileAccess) :
  FileAccess.wasBlocked access = false →
  FileAccess.reason access = ""%string →
  respects logs_unblocked (logFileAccess access).
Proof.
  intros Hblocked Hreason. unfold logFileAccess.
  repeat respects_step; auto using respects_mutex_lock, respects_unlock.
  apply respects_insert. intros db. eexists [_]. split; [done|].
  constructor; [|done]. split; simpl; [by rewrite Hblocked | done].
Qed.

Lemma respects_logProcessEvent (process : ProcessInfo) (event : string) :
  respects logs_unblocked (logProcessEvent process event).
Proof.
  unfold logProcessEvent.
  respects_step; [apply respects_mutex_lock|].
  respects_step; [|apply respects_unlock].
  apply respects_bind; [apply _|respects_step|intros [db|]]; [|respects_step].
  respects_step; [by apply respects_insert_elsewhere|].
  respects_step.
  { apply respects_for_each; [apply _|]. intros file.
    by apply respects_logFileAccess. }
  respects_step; (apply respects_for_each; [apply _|]); intros ?;
    by apply respects_insert_elsewhere.
Qed.

Lemma respects_logSystemCall (os : OS) (pid : Z) (syscall args : string) :
  respects logs_unblocked (logSystemCall os pid syscall args).
Proof.
  unfold logSystemCall.
  repeat respects_step; auto using respects_mutex_lock, respects_unlock.
  by apply respects_insert_elsewhere.
Qed.

Lemma respects_handleFileWrite (os : OS) (message : es_message_t) :
  respects logs_unblocked (ProcessMonitoring.handleFileWrite os message).
Proof.
  unfold ProcessMonitoring.handleFileWrite.
  destruct (write_target_path (event message)).
  - by apply respects_logFileAccess.
  - respects_step.
Qed.

Lemma respects_handleFileDelete (os : OS) (message : es_message_t) :
  respects logs_unblocked (ProcessMonitoring.handleFileDelete os message).
Proof.
  unfold ProcessMonitoring.handleFileDelete.
  destruct (unlink_target_path (event message)).
  - by apply respects_logFileAccess.
  - respects_step.
Qed.

Lemma keeps_recent_set_runningProcesses (m : gmap Z ProcessInfo)
    (c : Controller) :
  keeps_recent_unblocked c (set_runningProcesses m c).
Proof. split; [done|]. exists []. by rewrite app_nil_r. Qed.

Lemma keeps_recent_logProcessEvent (process : ProcessInfo) (event : string) :
  respects keeps_recent_unblocked (logProcessEvent process event).
Proof.
  eapply respects_weaken;
    [apply logs_unblocked_keeps_recent | apply respects_logProcessEvent].
Qed.

Lemma respects_handleProcessExec (os : OS) (message : es_message_t) :
  respects keeps_recent_unblocked
    (ProcessMonitoring.handleProcessExec os message).
Proof.
  unfold ProcessMonitoring.handleProcessExec. respects_step.
  - apply respects_modify. intros c. apply keeps_recent_set_runningProcesses.
  - apply keeps_recent_logProcessEvent.
Qed.

Lemma respects_handleProcessExit (message : es_message_t) :
  respects keeps_recent_unblocked
    (ProcessMonitoring.handleProcessExit message).
Proof.
  unfold ProcessMonitoring.handleProcessExit.
  apply respects_bind; [apply _|respects_step|intros [info|]]; [|respects_step].
  respects_step; [apply keeps_recent_logProcessEvent|].
  apply respects_modify. intros c. apply keeps_recent_set_runningProcesses.
Qed.

(** Every handler but [handleFileOpen] leaves the recent-access buffer
    alone and writes no blocked row. *)
Lemma respects_route (os : OS) (message : es_message_t) :
  event_type message ≠ ES_EVENT_TYPE_AUTH_OPEN →
  event_type message ≠ ES_EVENT_TYPE_NOTIFY_OPEN →
  respects keeps_recent_unblocked (ProcessMonitoring.route os message).
Proof.
  intros Hauth Hnotify.
  unfold ProcessMonitoring.route, ProcessMonitoring.handleMmap,
    ProcessMonitoring.handleSignal, ProcessMonitoring.handleFork,
    ProcessMonitoring.handleSetuid.
  destruct (event_type message); try done;
    first
      [ apply respects_handleProcessExec
      | apply respects_handleProcessExit
      | apply respects_ret; apply _
      | eapply respects_weaken; [apply logs_unblocked_keeps_recent|];
        first [ apply respects_handleFileWrite
              | apply respects_handleFileDelete
              | apply respects_logSystemCall ] ].
Qed.

(** ** The device-access decision *)

(** C1 (as corrected): the [handleESEvent] of [AudioVideoController.cpp]
    answers an [AUTH_OPEN] message exactly once: with ALLOW iff the
    microphone is enabled when the path contains an audio marker; with ALLOW
    iff the camera is enabled when the path contains a video marker and no
    audio marker; with ALLOW when the path contains neither or is null. *)
Theorem C1_device_open_decision (c : Controller) (m : es_message_t) :
  event_type m = ES_EVENT_TYPE_AUTH_OPEN →
  let responses := (AudioVideoController.handleESEvent c m).1 in
  (∀ path, open_file_path (event m) = Some path →
     (has_audio_marker path →
        responses = [allow_iff (microphoneEnabled c)]) ∧
     (¬ has_audio_marker path → has_video_marker path →
        responses = [allow_iff (cameraEnabled c)]) ∧
     (¬ has_audio_marker path → ¬ has_video_marker path →
        responses = [ES_AUTH_RESULT_ALLOW])) ∧
  (open_file_path (event m) = None → responses = [ES_AUTH_RESULT_ALLOW]).
Proof.
  intros Htype. unfold AudioVideoController.handleESEvent. rewrite Htype.
  simpl. split.
  - intros path ->.
    pose proof (audio_device_path_spec path) as Haudio.
    pose proof (video_device_path_spec path) as Hvideo.
    destruct (AudioVideoController.audio_device_path path),
      (AudioVideoController.video_device_path path);
      repeat split; intros; simpl; intuition congruence.
  - by intros ->.
Qed.

Lemma C1_device_open_decision_witness :
  (AudioVideoController.handleESEvent microphone_off
     (message_on ES_EVENT_TYPE_AUTH_OPEN (Some "/dev/audio1"%string))).1
  = [ES_AUTH_RESULT_DENY].
Proof.
  destruct (C1_device_open_decision microphone_off
              (message_on ES_EVENT_TYPE_AUTH_OPEN (Some "/dev/audio1"%string))
              eq_refl) as [Hpath _].
  destruct (Hpath "/dev/audio1"%string eq_refl) as [Haudio _].
  apply Haudio. left. exists ""%string, "1"%string. reflexivity.
Defined.

(** C1 as stated fails: a path with a video marker that also contains an
    audio marker is answered from the microphone flag, so it is allowed
    while the camera is disabled. *)
Lemma C1_video_marker_answered_from_microphone_flag :
  has_video_marker both_markers_path ∧
  cameraEnabled camera_off = false ∧
  (AudioVideoController.handleESEvent camera_off
     (message_on ES_EVENT_TYPE_AUTH_OPEN (Some both_markers_path))).1
  = [ES_AUTH_RESULT_ALLOW].
Proof.
  split; [|split; reflexivity].
  right. right. left.
  exists "/Library/"%string, "/Plug-Ins/DAL/coreaudio.plist"%string.
  reflexivity.
Qed.

(** C9: the constructor sets both flags, so before any enable or disable
    call every device-open message is allowed. *)
Theorem C9_initial_posture_allows (m : es_message_t) :
  event_type m = ES_EVENT_TYPE_AUTH_OPEN →
  microphoneEnabled AudioVideoController.constructor = true ∧
  cameraEnabled AudioVideoController.constructor = true ∧
  (AudioVideoController.handleESEvent AudioVideoController.constructor m).1
  = [ES_AUTH_RESULT_ALLOW].
Proof.
  intros Htype. split; [done|split; [done|]].
  unfold AudioVideoController.handleESEvent. rewrite Htype. simpl.
  destruct (open_file_path (event m)) as [path|]; [|done].
  by destruct (AudioVideoController.audio_device_path path),
    (AudioVideoController.video_device_path path).
Qed.

Lemma C9_initial_posture_allows_witness :
  (AudioVideoController.handleESEvent AudioVideoController.constructor
     (message_on ES_EVENT_TYPE_AUTH_OPEN (Some "/dev/video0"%string))).1
  = [ES_AUTH_RESULT_ALLOW].
Proof.
  apply (C9_initial_posture_allows
           (message_on ES_EVENT_TYPE_AUTH_OPEN (Some "/dev/video0"%string))
           eq_refl).
Defined.

(** ** One response per authorization message *)

Lemma handleFileOpen_returns (os : OS) (m : es_message_t) :
  returns_free (ProcessMonitoring.handleFileOpen os m).
Proof.
  unfold ProcessMonitoring.handleFileOpen.
  destruct (open_file_path (event m)) as [path|];
    [|apply steady_returns_free, steady_ret].
  apply returns_free_bind; [apply steady_returns_free, steady_get|intros mic].
  apply returns_free_bind; [apply steady_returns_free, steady_get|intros cam].
  apply returns_free_bind; [apply logFileAccess_returns|intros _].
  apply steady_returns_free, steady_bind; [|intros _];
    apply steady_modify; intros c; [done|].
  by destruct (10000 <? _).
Qed.

Lemma handleFileWrite_returns (os : OS) (m : es_message_t) :
  returns_free (ProcessMonitoring.handleFileWrite os m).
Proof.
  unfold ProcessMonitoring.handleFileWrite.
  destruct (write_target_path (event m));
    [apply logFileAccess_returns | apply steady_returns_free, steady_ret].
Qed.

Lemma handleFileDelete_returns (os : OS) (m : es_message_t) :
  returns_free (ProcessMonitoring.handleFileDelete os m).
Proof.
  unfold ProcessMonitoring.handleFileDelete.
  destruct (unlink_target_path (event m));
    [apply logFileAccess_returns | apply steady_returns_free, steady_ret].
Qed.

(** Only the handlers of process start and exit can block a thread that
    enters them with the mutex free. *)
Lemma route_returns (os : OS) (m : es_message_t) :
  event_type m ≠ ES_EVENT_TYPE_NOTIFY_EXEC →
  event_type m ≠ ES_EVENT_TYPE_NOTIFY_EXIT →
  returns_free (ProcessMonitoring.route os m).
Proof.
  intros Hexec Hexit.
  unfold ProcessMonitoring.route, ProcessMonitoring.handleMmap,
    ProcessMonitoring.handleSignal, ProcessMonitoring.handleFork,
    ProcessMonitoring.handleSetuid.
  destruct (event_type m); try done;
    first
      [ apply handleFileOpen_returns
      | apply handleFileWrite_returns
      | apply handleFileDelete_returns
      | apply logSystemCall_returns
      | apply steady_returns_free, steady_ret ].
Qed.

(** For a delivered message, handled while the audit-store mutex is free,
    either callback issues exactly one response when the message is
    authorization-class, and that response is ALLOW unless the message is
    the device-open that [AudioVideoController.cpp] decides; neither
    callback issues a response for a notify-class message. *)
Lemma one_response_when_mutex_free (os : OS) (c : Controller)
    (m : es_message_t) :
  delivered m → databaseMutex c = false →
  let device := (AudioVideoController.handleESEvent c m).1 in
  let monitor := (ProcessMonitoring.handleESEvent os c m).1 in
  (action_type m = ES_ACTION_TYPE_AUTH →
     length device = 1%nat ∧
     (event_type m ≠ ES_EVENT_TYPE_AUTH_OPEN → device = [ES_AUTH_RESULT_ALLOW]) ∧
     monitor = [ES_AUTH_RESULT_ALLOW]) ∧
  (action_type m = ES_ACTION_TYPE_NOTIFY → device = [] ∧ monitor = []).
Proof.
  intros Hdelivered Hfree. unfold delivered in Hdelivered. simpl. split.
  - intros Hauth. rewrite Hauth in Hdelivered. split; [|split].
    + unfold AudioVideoController.handleESEvent. simpl. rewrite Hauth.
      destruct (event_type m); try discriminate; try done.
      destruct (open_file_path (event m)) as [path|]; [|done].
      by destruct (AudioVideoController.audio_device_path path),
        (AudioVideoController.video_device_path path).
    + intros Hopen. unfold AudioVideoController.handleESEvent. simpl.
      rewrite Hauth. by destruct (event_type m).
    + unfold ProcessMonitoring.handleESEvent.
      destruct (route_returns os m) with (c := c) as (u & c' & -> & _);
        [by destruct (event_type m) | by destruct (event_type m) | done |].
      simpl. by rewrite Hauth.
  - intros Hnotify. rewrite Hnotify in Hdelivered. split.
    + unfold AudioVideoController.handleESEvent. simpl. rewrite Hnotify.
      by destruct (event_type m).
    + unfold ProcessMonitoring.handleESEvent.
      destruct (ProcessMonitoring.route os m c); simpl; [|done].
      by rewrite Hnotify.
Qed.

(** C2 fails on the callback of [ProcessMonitoring.cpp].  On a system where
    a listed process holds a file open, the process scan blocks inside
    [logProcessEvent], in the nested [logFileAccess], and its thread keeps
    the mutex for good.  An authorization message delivered afterwards, for
    an open or for an unlink, makes the callback block on that mutex before
    the statement that responds: the message gets no response, where the
    callback of [AudioVideoController.cpp] answers it once. *)
Lemma C2_authorization_left_unanswered :
  let scan :=
    ProcessDiscovery.scanRunningProcesses recorder_os (Some listed_pids)
      opened in
  let opening := message_on ES_EVENT_TYPE_AUTH_OPEN (Some "/tmp/a"%string) in
  let unlinking :=
    message_on ES_EVENT_TYPE_AUTH_UNLINK (Some "/tmp/a"%string) in
  returned scan = false ∧
  databaseMutex (final scan) = true ∧
  delivered opening ∧ action_type opening = ES_ACTION_TYPE_AUTH ∧
  delivered unlinking ∧ action_type unlinking = ES_ACTION_TYPE_AUTH ∧
  (ProcessMonitoring.handleESEvent recorder_os (final scan) opening).1 = [] ∧
  (ProcessMonitoring.handleESEvent recorder_os (final scan) unlinking).1
    = [] ∧
  (AudioVideoController.handleESEvent (final scan) opening).1
    = [ES_AUTH_RESULT_ALLOW] ∧
  (AudioVideoController.handleESEvent (final scan) unlinking).1
    = [ES_AUTH_RESULT_ALLOW].
Proof. repeat split. Qed.

(** ** A blocked open that is allowed *)

(** C3 fails on both callbacks at the input of its scenario: the callback
    of [ProcessMonitoring.cpp] persists the record marked blocked and then
    answers ALLOW; the callback of [AudioVideoController.cpp] answers DENY
    and persists nothing. *)
Lemma C3_blocked_record_without_deny :
  let m := message_on ES_EVENT_TYPE_AUTH_OPEN (Some "/dev/audio1"%string) in
  let monitor := ProcessMonitoring.handleESEvent quiet_os microphone_off m in
  let device := AudioVideoController.handleESEvent microphone_off m in
  microphoneEnabled microphone_off = false ∧
  monitor.1 = [ES_AUTH_RESULT_ALLOW] ∧
  stored_file_access (final monitor.2) =
    [ {| file_access.timestamp := 4242; file_access.pid := 500;
         file_access.file_path := "/dev/audio1";
         file_access.access_type := "OPEN";
         file_access.was_blocked := 1;
         file_access.reason := "Microphone disabled by system extension" |} ] ∧
  device.1 = [ES_AUTH_RESULT_DENY] ∧
  stored_file_access (final device.2) = [].
Proof. repeat split. Qed.

(** ** The recent-access buffer *)

Lemma handleFileOpen_held (os : OS) (m : es_message_t) (c : Controller)
    (path : string) :
  open_file_path (event m) = Some path → databaseMutex c = true →
  ProcessMonitoring.handleFileOpen os m c = Blocked c.
Proof.
  intros Hpath Hheld. unfold ProcessMonitoring.handleFileOpen.
  rewrite Hpath. unfold bind, get. by rewrite logFileAccess_held.
Qed.

Lemma handleFileOpen_free (os : OS) (m : es_message_t) (c : Controller)
    (path : string) :
  open_file_path (event m) = Some path → databaseMutex c = false →
  ∃ c', ProcessMonitoring.handleFileOpen os m c = Returned tt c' ∧
    recentFileAccess c' =
      let v := ProcessMonitoring.push_back
                 (ProcessMonitoring.open_access os
                    (audit_token_to_pid (process m)) path
                    (microphoneEnabled c) (cameraEnabled c))
                 (recentFileAccess c) in
      if 10000 <? ProcessMonitoring.size v
      then ProcessMonitoring.erase 0 1000 v else v.
Proof.
  intros Hpath Hfree. unfold ProcessMonitoring.handleFileOpen.
  rewrite Hpath. unfold bind, get. rewrite logFileAccess_free by done.
  unfold modify. simpl.
  destruct (10000 <? _); eexists; split; reflexivity.
Qed.

Lemma size_push_back {A} (x : A) (v : list A) :
  ProcessMonitoring.size (ProcessMonitoring.push_back x v)
  = ProcessMonitoring.size v + 1.
Proof.
  unfold ProcessMonitoring.size, ProcessMonitoring.push_back.
  rewrite length_app. simpl. lia.
Qed.

Lemma size_erase_front {A} (n : nat) (v : list A) :
  Z.of_nat n ≤ ProcessMonitoring.size v →
  ProcessMonitoring.size (ProcessMonitoring.erase 0 n v)
  = ProcessMonitoring.size v - Z.of_nat n.
Proof.
  unfold ProcessMonitoring.size, ProcessMonitoring.erase. intros Hn.
  rewrite take_0, app_nil_l, length_drop. lia.
Qed.

Lemma handleFileOpen_bounded (os : OS) (m : es_message_t) (c : Controller) :
  bounded_recent c →
  bounded_recent (final (ProcessMonitoring.handleFileOpen os m c)).
Proof.
  intros Hbound.
  destruct (open_file_path (event m)) as [path|] eqn:Hpath.
  - destruct (databaseMutex c) eqn:Hmutex.
    + by rewrite (handleFileOpen_held os m c path).
    + destruct (handleFileOpen_free os m c path) as (c' & -> & Hrecent);
        [done..|].
      unfold bounded_recent in *. simpl. rewrite Hrecent. simpl.
      destruct (10000 <? _) eqn:Hover.
      * apply Z.ltb_lt in Hover. rewrite size_push_back in Hover.
        rewrite size_erase_front; rewrite size_push_back;
          change (Z.of_nat 1000) with 1000; lia.
      * by apply Z.ltb_ge in Hover.
  - unfold ProcessMonitoring.handleFileOpen. by rewrite Hpath.
Qed.

Lemma final_handleESEvent (os : OS) (c : Controller) (m : es_message_t) :
  final (ProcessMonitoring.handleESEvent os c m).2
  = final (ProcessMonitoring.route os m c).
Proof.
  unfold ProcessMonitoring.handleESEvent.
  by destruct (ProcessMonitoring.route os m c).
Qed.

Lemma handleESEvent_bounded (os : OS) (c : Controller) (m : es_message_t) :
  bounded_recent c →
  bounded_recent (final (ProcessMonitoring.handleESEvent os c m).2).
Proof.
  intros Hbound. rewrite final_handleESEvent.
  destruct (decide (event_type m = ES_EVENT_TYPE_AUTH_OPEN)) as [Hauth|Hauth];
    [unfold ProcessMonitoring.route; rewrite Hauth;
     by apply handleFileOpen_bounded|].
  destruct (decide (event_type m = ES_EVENT_TYPE_NOTIFY_OPEN)) as [Hnot|Hnot];
    [unfold ProcessMonitoring.route; rewrite Hnot;
     by apply handleFileOpen_bounded|].
  destruct (respects_route os m Hauth Hnot c) as [Hrecent _].
  unfold bounded_recent in *. by rewrite Hrecent.
Qed.

(** C4: whatever messages the callback of [ProcessMonitoring.cpp] handles,
    the recent-access buffer holds at most 10,000 records after each of
    them.  A file-open appends its record; when that takes the size past
    10,000, the buffer loses its 1,000 oldest records at once and keeps the
    others in order. *)
Theorem C4_recent_file_access_bounded :
  (∀ events c, bounded_recent c →
     Forall bounded_recent (controllers_after events c)) ∧
  (∀ os m c path,
     open_file_path (event m) = Some path → databaseMutex c = false →
     let access :=
       ProcessMonitoring.open_access os (audit_token_to_pid (process m)) path
         (microphoneEnabled c) (cameraEnabled c) in
     ∃ c', ProcessMonitoring.handleFileOpen os m c = Returned tt c' ∧
       (ProcessMonitoring.size (recentFileAccess c) < 10000 →
          recentFileAccess c' = recentFileAccess c ++ [access]) ∧
       (10000 ≤ ProcessMonitoring.size (recentFileAccess c) →
          ∃ oldest, length oldest = 1000%nat ∧
            recentFileAccess c ++ [access] = oldest ++ recentFileAccess c')).
Proof.
  split.
  - intros events. induction events as [|[os m] events IH]; intros c Hbound.
    + constructor.
    + simpl. pose proof (handleESEvent_bounded os c m Hbound) as Hnext.
      destruct (ProcessMonitoring.handleESEvent os c m).2 as [u c'|c'];
        simpl in Hnext; constructor; auto.
  - intros os m c path Hpath Hfree access.
    destruct (handleFileOpen_free os m c path Hpath Hfree)
      as (c' & Hrun & Hrecent).
    exists c'. split; [done|]. fold access in Hrecent. simpl in Hrecent.
    rewrite size_push_back in Hrecent. split; intros Hsize.
    + destruct (10000 <? _) eqn:Hover; [apply Z.ltb_lt in Hover; lia|done].
    + destruct (10000 <? _) eqn:Hover; [|apply Z.ltb_ge in Hover; lia].
      exists (take 1000 (recentFileAccess c ++ [access])). split.
      * rewrite length_take. apply Nat.min_l, Nat2Z.inj_le.
        rewrite length_app, Nat2Z.inj_add.
        change (Z.of_nat 1000) with 1000.
        unfold ProcessMonitoring.size in Hsize. lia.
      * rewrite Hrecent. unfold ProcessMonitoring.erase.
        rewrite take_0, app_nil_l. symmetry. apply take_drop.
Qed.

Lemma C4_recent_file_access_bounded_witness :
  Forall bounded_recent
    (controllers_after
       [ (quiet_os, message_on ES_EVENT_TYPE_NOTIFY_OPEN (Some "/tmp/b"%string)) ]
       full_buffer) ∧
  ∃ c' oldest,
    ProcessMonitoring.handleFileOpen quiet_os
      (message_on ES_EVENT_TYPE_NOTIFY_OPEN (Some "/tmp/b"%string))
      full_buffer = Returned tt c' ∧
    length oldest = 1000%nat ∧
    recentFileAccess full_buffer ++
      [ ProcessMonitoring.open_access quiet_os 500 "/tmp/b" true true ]
    = oldest ++ recentFileAccess c'.
Proof.
  destruct C4_recent_file_access_bounded as [Hall Hstep]. split.
  - apply Hall. unfold bounded_recent. vm_compute. discriminate.
  - destruct (Hstep quiet_os
                (message_on ES_EVENT_TYPE_NOTIFY_OPEN (Some "/tmp/b"%string))
                full_buffer "/tmp/b"%string eq_refl eq_refl)
      as (c' & Hrun & _ & Hevict).
    destruct Hevict as (oldest & Hlen & Hsplit);
      [vm_compute; discriminate|].
    exists c', oldest. split; [exact Hrun|]. split; [exact Hlen|exact Hsplit].
Defined.

(** ** The policy mutators *)

Lemma set_microphoneEnabled_twice (b : bool) (c : Controller) :
  set_microphoneEnabled b (set_microphoneEnabled b c)
  = set_microphoneEnabled b c.
Proof. done. Qed.

Lemma set_cameraEnabled_twice (b : bool) (c : Controller) :
  set_cameraEnabled b (set_cameraEnabled b c) = set_cameraEnabled b c.
Proof. done. Qed.

Lemma set_cameraEnabled_same (c : Controller) :
  set_cameraEnabled (cameraEnabled c) c = c.
Proof. by destruct c. Qed.

(** C5 (as corrected): enabling twice leaves the flag set after each call
    and the second call changes nothing; each call reports success exactly
    when its IOKit lookup of the device class succeeds; [enableCamera] on a
    controller whose camera is enabled leaves the controller as it was. *)
Theorem C5_enable_idempotent (os1 os2 : OS) (c : Controller) :
  let mic1 := AudioVideoController.enableMicrophone os1 c in
  let mic2 := AudioVideoController.enableMicrophone os2 mic1.2 in
  let cam1 := AudioVideoController.enableCamera os1 c in
  let cam2 := AudioVideoController.enableCamera os2 cam1.2 in
  (microphoneEnabled mic1.2 = true ∧ microphoneEnabled mic2.2 = true ∧
   mic2.2 = mic1.2) ∧
  (cameraEnabled cam1.2 = true ∧ cameraEnabled cam2.2 = true ∧
   cam2.2 = cam1.2) ∧
  (mic1.1 = true ↔ IOServiceGetMatchingServices os1 "IOAudioDevice" = KERN_SUCCESS) ∧
  (mic2.1 = true ↔ IOServiceGetMatchingServices os2 "IOAudioDevice" = KERN_SUCCESS) ∧
  (cam1.1 = true ↔ IOServiceGetMatchingServices os1 "IOVideoDevice" = KERN_SUCCESS) ∧
  (cam2.1 = true ↔ IOServiceGetMatchingServices os2 "IOVideoDevice" = KERN_SUCCESS) ∧
  (cameraEnabled c = true → cam1.2 = c).
Proof.
  simpl. repeat split; try done;
    unfold AudioVideoController.controlAudioDevices,
      AudioVideoController.controlVideoDevices;
    try (case_decide; done).
  intros Hon. rewrite <- Hon. apply set_cameraEnabled_same.
Qed.

Lemma C5_enable_idempotent_witness :
  (AudioVideoController.enableCamera quiet_os opened).1 = true ∧
  (AudioVideoController.enableCamera quiet_os opened).2 = opened.
Proof.
  destruct (C5_enable_idempotent quiet_os quiet_os opened)
    as (_ & _ & _ & _ & Hcam & _ & Hsame).
  split; [by apply Hcam | by apply Hsame].
Defined.

(** C5 as stated fails: when the IOKit lookup fails, both calls of
    [enableMicrophone] report failure, although the flag is set. *)
Lemma C5_enable_reports_failure :
  let first :=
    AudioVideoController.enableMicrophone iokit_down_os
      AudioVideoController.constructor in
  let second := AudioVideoController.enableMicrophone iokit_down_os first.2 in
  first.1 = false ∧ second.1 = false ∧ microphoneEnabled second.2 = true.
Proof. repeat split. Qed.

(** ** Lookup in the registry *)

Lemma handleProcessExit_removes (m : es_message_t) (c c' : Controller) :
  ProcessMonitoring.handleProcessExit m c = Returned tt c' →
  runningProcesses c' !! audit_token_to_pid (process m) = None.
Proof.
  unfold ProcessMonitoring.handleProcessExit, bind, get.
  destruct (runningProcesses c !! _) as [info|] eqn:Hknown.
  - destruct (logProcessEvent info "EXIT" c) as [u c1|c1]; [|done].
    unfold modify. intros [= <-]. simpl. apply lookup_delete_eq.
  - unfold ret. by intros [= <-].
Qed.

(** [getProcessInfo] answers from the registry when the process id is
    cached, whatever the system shows by then, and otherwise with a snapshot
    collected at the call: the process id asked for, the path, command line,
    open files, sockets, images and environment observed for it, the
    classification of its path, and the identity, start time, memory and
    processor time of [proc_pidinfo] when that query succeeds. *)
Lemma getProcessInfo_cached_or_collected (os : OS) (c : Controller)
    (pid : Z) :
  (∀ info, runningProcesses c !! pid = Some info →
     getProcessInfo os c pid = info) ∧
  (runningProcesses c !! pid = None →
     let info := getProcessInfo os c pid in
     ProcessInfo.pid info = pid ∧
     ProcessInfo.executablePath info
       = default ""%string (proc_pidpath os pid) ∧
     ProcessInfo.commandLine info = observed_command_line os pid ∧
     ProcessInfo.openFiles info = observed_open_files os pid ∧
     ProcessInfo.networkConnections info = observed_sockets os pid ∧
     ProcessInfo.loadedLibraries info = observed_images os pid ∧
     ProcessInfo.environmentVariables info = observed_environment os pid ∧
     ProcessInfo.isSystemProcess info = isSystemCriticalProcess os pid ∧
     ∀ t, proc_pidinfo_TASKALLINFO os pid = Some t →
       ProcessInfo.ppid info = to_int32 (pbi_ppid (pbsd t)) ∧
       ProcessInfo.uid info = pbi_uid (pbsd t) ∧
       ProcessInfo.gid info = pbi_gid (pbsd t) ∧
       ProcessInfo.startTime info = pbi_start_tvsec (pbsd t) ∧
       ProcessInfo.memoryUsage info = pti_resident_size (ptinfo t) ∧
       ProcessInfo.cpuTime info
         = to_uint64 (pti_total_user (ptinfo t)
                      + pti_total_system (ptinfo t))).
Proof.
  unfold getProcessInfo. split.
  - by intros info ->.
  - intros ->. unfold analyzeProcess. simpl.
    do 8 (split; [done|]).
    intros t ->. by repeat split.
Qed.

(** C6 fails at the exit of a process whose snapshot lists an open file.
    The process scan caches the snapshot of process 500 and blocks in
    [logProcessEvent] with the mutex held; when the process has gone and
    its exit message is handled, [handleProcessExit] blocks in
    [logProcessEvent] before the statement that erases the entry.  The
    snapshot stays cached, and [getProcessInfo] keeps returning it where a
    fresh collection gives another result.  The handler blocks in the same
    way when such a snapshot is cached and the mutex is free. *)
Lemma C6_exit_leaves_snapshot_cached :
  let scan :=
    ProcessDiscovery.scanRunningProcesses recorder_os (Some [500]) opened in
  let exit := message_on ES_EVENT_TYPE_NOTIFY_EXIT None in
  let after := ProcessMonitoring.handleESEvent quiet_os (final scan) exit in
  let stale := analyzeProcess recorder_os 500 in
  let cached := set_runningProcesses (<[500 := stale]> ∅) opened in
  let after_cached := ProcessMonitoring.handleProcessExit exit cached in
  audit_token_to_pid (process exit) = 500 ∧
  runningProcesses (final scan) !! 500 = Some stale ∧
  returned after.2 = false ∧
  runningProcesses (final after.2) !! 500 = Some stale ∧
  getProcessInfo quiet_os (final after.2) 500 = stale ∧
  stale ≠ analyzeProcess quiet_os 500 ∧
  databaseMutex cached = false ∧
  returned after_cached = false ∧
  runningProcesses (final after_cached) !! 500 = Some stale ∧
  getProcessInfo quiet_os (final after_cached) 500 = stale.
Proof. repeat split; try done. Qed.

(** ** The history readers *)

Section most_recent.
Context {Row : Type} (timestamp : Row → Z).

Global Instance newer_first_transitive : Transitive (newer_first timestamp).
Proof. unfold newer_first. intros r1 r2 r3. lia. Qed.

Global Instance newer_first_total : Total (newer_first timestamp).
Proof. unfold newer_first. intros r1 r2. lia. Qed.

Lemma select_most_recent (n : nat) (rows : list Row) :
  most_recent timestamp n rows
    (select_order_by_timestamp_desc_limit timestamp n rows).
Proof.
  unfold select_order_by_timestamp_desc_limit.
  pose proof (StronglySorted_merge_sort (newer_first timestamp) rows)
    as Hsorted.
  pose proof (merge_sort_Permutation (newer_first timestamp) rows) as Hperm.
  set (sorted := merge_sort (newer_first timestamp) rows) in *.
  rewrite <- (take_drop n sorted) in Hsorted.
  apply StronglySorted_app in Hsorted as (Hacross & Htake & _).
  split; [|split; [done|]].
  - by rewrite length_take, (Permutation_length Hperm).
  - exists (drop n sorted). split.
    + by rewrite take_drop.
    + intros r r' Hr Hr'. by apply Hacross.
Qed.
End most_recent.


Lemma to_int64_small (z : Z) : 0 ≤ z < 2 ^ 63 → to_int64 z = z.
Proof. intros Hz. unfold to_int64. rewrite Z.mod_small; lia. Qed.



Lemma getFileAccessHistory_free (c : Controller) :
  databaseMutex c = false →
  getFileAccessHistory c =
    Returned
      (map access_of_row
         (select_order_by_timestamp_desc_limit file_access.timestamp
            5000 (stored_file_access c)))
      c.
Proof.
  intros Hfree. destruct c as [mic cam db mx mon procs conns recent].
  simpl in Hfree. subst mx. by destruct db.
Qed.




(** ** Capability classification *)

Lemma classify_library_spec (p : ProcessInfo) (lib : string) :
  let q := ProcessMonitoring.classify_library p lib in
  ProcessInfo.loadedLibraries q = ProcessInfo.loadedLibraries p ∧
  (ProcessInfo.hasAudioAccess q = true ↔
     ProcessInfo.hasAudioAccess p = true ∨ audio_fragment lib) ∧
  (ProcessInfo.hasVideoAccess q = true ↔
     ProcessInfo.hasVideoAccess p = true ∨ video_fragment lib) ∧
  (ProcessInfo.hasNetworkAccess q = true ↔
     ProcessInfo.hasNetworkAccess p = true ∨ network_fragment lib).
Proof.
  unfold ProcessMonitoring.classify_library.
  set (audio := _ || _ || ProcessMonitoring.found lib "AudioUnit").
  set (video := _ || ProcessMonitoring.found lib "CoreMediaIO").
  set (network := _ || ProcessMonitoring.found lib "CFNetwork").
  assert (audio = true ↔ audio_fragment lib) as Haudio
    by (unfold audio, audio_fragment;
        rewrite !orb_true_iff, !found_spec; tauto).
  assert (video = true ↔ video_fragment lib) as Hvideo
    by (unfold video, video_fragment;
        rewrite !orb_true_iff, !found_spec; tauto).
  assert (network = true ↔ network_fragment lib) as Hnetwork
    by (unfold network, network_fragment;
        rewrite !orb_true_iff, !found_spec; tauto).
  destruct audio, video, network; simpl; intuition congruence.
Qed.

Lemma fold_classify_library_spec (libs : list string) (p : ProcessInfo) :
  let q := fold_left ProcessMonitoring.classify_library libs p in
  ProcessInfo.loadedLibraries q = ProcessInfo.loadedLibraries p ∧
  (ProcessInfo.hasAudioAccess q = true ↔
     ProcessInfo.hasAudioAccess p = true ∨
     ∃ lib, lib ∈ libs ∧ audio_fragment lib) ∧
  (ProcessInfo.hasVideoAccess q = true ↔
     ProcessInfo.hasVideoAccess p = true ∨
     ∃ lib, lib ∈ libs ∧ video_fragment lib) ∧
  (ProcessInfo.hasNetworkAccess q = true ↔
     ProcessInfo.hasNetworkAccess p = true ∨
     ∃ lib, lib ∈ libs ∧ network_fragment lib).
Proof.
  revert p. induction libs as [|lib libs IH]; intros p; simpl.
  - repeat split; try tauto; intros [?|(lib & Hin & _)]; try done;
      by apply elem_of_nil in Hin.
  - destruct (IH (ProcessMonitoring.classify_library p lib))
      as (Hlibs & Haudio & Hvideo & Hnet).
    destruct (classify_library_spec p lib) as (Hlibs' & Ha & Hv & Hn).
    simpl in *. rewrite Hlibs, Haudio, Hvideo, Hnet, Ha, Hv, Hn.
    split; [done|].
    repeat split;
      try (intros [[?|?]|(l & Hin & ?)];
           [by left | right; exists lib; split; [by left|done]
           | right; exists l; split; [by right|done]]);
      (intros [?|(l & Hin & ?)]; [by left; left|];
       apply elem_of_cons in Hin as [->|Hin];
       [by left; right | right; by exists l]).
Qed.

Lemma handleProcessExec_registry (os : OS) (m : es_message_t)
    (c : Controller) :
  runningProcesses (final (ProcessMonitoring.handleProcessExec os m c))
  = <[audit_token_to_pid (process m) := ProcessMonitoring.exec_snapshot os m]>
      (runningProcesses c).
Proof.
  unfold ProcessMonitoring.handleProcessExec, bind, modify.
  destruct (respects_logProcessEvent (ProcessMonitoring.exec_snapshot os m)
              "EXEC"
              (set_runningProcesses
                 (<[audit_token_to_pid (process m) :=
                      ProcessMonitoring.exec_snapshot os m]>
                    (runningProcesses c)) c))
    as (_ & _ & Hprocs & _).
  by destruct (logProcessEvent _ _ _).
Qed.

(** C8: the snapshot that [handleProcessExec] stores for the process has
    the audio flag set exactly when one of its loaded module paths contains
    an audio framework fragment, and likewise the video and the network
    flag; the modules are those observed for the process. *)
Theorem C8_capability_classification (os : OS) (m : es_message_t)
    (c : Controller) :
  let pid := audit_token_to_pid (process m) in
  let c' := final (ProcessMonitoring.handleProcessExec os m c) in
  ∃ info, runningProcesses c' !! pid = Some info ∧
    ProcessInfo.loadedLibraries info = getProcessLoadedLibraries os pid ∧
    (ProcessInfo.hasAudioAccess info = true ↔
       ∃ lib, lib ∈ ProcessInfo.loadedLibraries info ∧ audio_fragment lib) ∧
    (ProcessInfo.hasVideoAccess info = true ↔
       ∃ lib, lib ∈ ProcessInfo.loadedLibraries info ∧ video_fragment lib) ∧
    (ProcessInfo.hasNetworkAccess info = true ↔
       ∃ lib, lib ∈ ProcessInfo.loadedLibraries info ∧ network_fragment lib).
Proof.
  simpl. exists (ProcessMonitoring.exec_snapshot os m).
  split; [by rewrite handleProcessExec_registry, lookup_insert_eq|].
  unfold ProcessMonitoring.exec_snapshot.
  match goal with
  | |- context [fold_left _ ?libs ?p] =>
      destruct (fold_classify_library_spec libs p)
        as (Hlibs & Haudio & Hvideo & Hnet)
  end.
  simpl in *. rewrite Hlibs, Haudio, Hvideo, Hnet.
  repeat split; try tauto; intros [?|?]; done.
Qed.

Lemma C8_capability_classification_witness :
  ∃ info,
    runningProcesses
      (final (ProcessMonitoring.handleProcessExec recorder_os
                (message_on ES_EVENT_TYPE_NOTIFY_EXEC None) opened)) !! 500
    = Some info ∧
    ProcessInfo.hasAudioAccess info = true.
Proof.
  destruct (C8_capability_classification recorder_os
              (message_on ES_EVENT_TYPE_NOTIFY_EXEC None) opened)
    as (info & Hstored & Hlibs & Haudio & _).
  exists info. split; [exact Hstored|].
  apply Haudio. exists "/usr/lib/libAVFoundation.dylib"%string. split.
  - rewrite Hlibs. right. left.
  - left. exists "/usr/lib/lib"%string, ".dylib"%string. reflexivity.
Defined.

(** ** Records of writes and deletions *)

(** C10: whatever the policy flags, [handleFileWrite] and
    [handleFileDelete] add to the [file_access] table at most the one row of
    their record, with [was_blocked] 0 and an empty reason; more generally
    the callback of [ProcessMonitoring.cpp] writes no row marked blocked for
    any message that is not a file-open. *)
Theorem C10_write_and_delete_never_blocked (os : OS) (m : es_message_t)
    (c : Controller) :
  let written := final (ProcessMonitoring.handleFileWrite os m c) in
  let deleted := final (ProcessMonitoring.handleFileDelete os m c) in
  let handled := final (ProcessMonitoring.handleESEvent os c m).2 in
  let row path kind :=
    {| file_access.timestamp := to_int64 (mach_absolute_time os);
       file_access.pid := audit_token_to_pid (process m);
       file_access.file_path := path;
       file_access.access_type := kind;
       file_access.was_blocked := 0;
       file_access.reason := "" |} in
  (∃ new, stored_file_access written = stored_file_access c ++ new ∧
          Forall unblocked new) ∧
  (∃ new, stored_file_access deleted = stored_file_access c ++ new ∧
          Forall unblocked new) ∧
  (event_type m ≠ ES_EVENT_TYPE_AUTH_OPEN →
   event_type m ≠ ES_EVENT_TYPE_NOTIFY_OPEN →
   ∃ new, stored_file_access handled = stored_file_access c ++ new ∧
          Forall unblocked new) ∧
  (∀ path, write_target_path (event m) = Some path →
     is_Some (database c) → databaseMutex c = false →
     stored_file_access written = stored_file_access c ++ [row path "WRITE"%string]) ∧
  (∀ path, unlink_target_path (event m) = Some path →
     is_Some (database c) → databaseMutex c = false →
     stored_file_access deleted = stored_file_access c ++ [row path "DELETE"%string]).
Proof.
  simpl. split; [|split; [|split; [|split]]].
  - apply (respects_handleFileWrite os m c).
  - apply (respects_handleFileDelete os m c).
  - intros Hauth Hnotify. rewrite final_handleESEvent.
    apply (respects_route os m Hauth Hnotify c).
  - intros path Hpath [db Hdb] Hfree.
    unfold ProcessMonitoring.handleFileWrite. rewrite Hpath.
    rewrite logFileAccess_free by done. unfold stored_file_access. simpl.
    by rewrite Hdb.
  - intros path Hpath [db Hdb] Hfree.
    unfold ProcessMonitoring.handleFileDelete. rewrite Hpath.
    rewrite logFileAccess_free by done. unfold stored_file_access. simpl.
    by rewrite Hdb.
Qed.

Lemma C10_write_and_delete_never_blocked_witness :
  microphoneEnabled microphone_off = false ∧
  stored_file_access
    (final (ProcessMonitoring.handleFileWrite quiet_os
              (message_on ES_EVENT_TYPE_NOTIFY_WRITE (Some "/dev/audio1"%string))
              microphone_off))
  = [ {| file_access.timestamp := 4242; file_access.pid := 500;
         file_access.file_path := "/dev/audio1";
         file_access.access_type := "WRITE";
         file_access.was_blocked := 0;
         file_access.reason := "" |} ].
Proof.
  split; [reflexivity|].
  destruct (C10_write_and_delete_never_blocked quiet_os
              (message_on ES_EVENT_TYPE_NOTIFY_WRITE (Some "/dev/audio1"%string))
              microphone_off) as (_ & _ & _ & Hwrite & _).
  apply (Hwrite "/dev/audio1"%string eq_refl); [by eexists | reflexivity].
Defined.

(** ** The mutex between messages *)

Lemma unlock_last {A} (body : M A) (c c' : Controller) (u : unit) :
  (body >> pthread_mutex_unlock) c = Returned u c' →
  databaseMutex c' = false.
Proof.
  unfold bind. destruct (body c) as [a c1|c1]; [|done].
  unfold pthread_mutex_unlock, modify. by intros [= _ <-].
Qed.

Lemma logProcessEvent_returned_free (process : ProcessInfo) (event : string)
    (c c' : Controller) (u : unit) :
  logProcessEvent process event c = Returned u c' →
  databaseMutex c' = false.
Proof.
  unfold logProcessEvent. unfold bind at 1.
  destruct (pthread_mutex_lock c) as [v c1|c1]; [|done].
  apply unlock_last.
Qed.

(** A thread that entered the callback without the mutex leaves it without
    the mutex. *)
Lemma handleESEvent_returned_free (os : OS) (c c' : Controller)
    (m : es_message_t) (u : unit) :
  databaseMutex c = false →
  (ProcessMonitoring.handleESEvent os c m).2 = Returned u c' →
  databaseMutex c' = false.
Proof.
  intros Hfree. unfold ProcessMonitoring.handleESEvent.
  destruct (ProcessMonitoring.route os m c) as [v c1|c1] eqn:Hroute; [|done].
  simpl. intros [= _ <-].
  destruct (decide (event_type m = ES_EVENT_TYPE_NOTIFY_EXEC)) as [Hexec|Hexec].
  { revert Hroute. unfold ProcessMonitoring.route. rewrite Hexec.
    unfold ProcessMonitoring.handleProcessExec, bind, modify.
    apply logProcessEvent_returned_free. }
  destruct (decide (event_type m = ES_EVENT_TYPE_NOTIFY_EXIT)) as [Hexit|Hexit].
  { revert Hroute. unfold ProcessMonitoring.route. rewrite Hexit.
    unfold ProcessMonitoring.handleProcessExit, bind, get.
    destruct (runningProcesses c !! _) as [info|].
    - destruct (logProcessEvent info "EXIT" c) as [w c2|c2] eqn:Hlog; [|done].
      apply logProcessEvent_returned_free in Hlog.
      unfold modify. by intros [= _ <-].
    - unfold ret. by intros [= _ <-]. }
  destruct (route_returns os m Hexec Hexit c Hfree) as (w & c2 & Hrun & Hmx).
  congruence.
Qed.

Lemma fold_classify_library_openFiles (libs : list string)
    (p : ProcessInfo) :
  ProcessInfo.openFiles (fold_left ProcessMonitoring.classify_library libs p)
  = ProcessInfo.openFiles p.
Proof.
  revert p. induction libs as [|lib libs IH]; intros p; simpl; [done|].
  rewrite IH. unfold ProcessMonitoring.classify_library.
  by destruct (_ || _ || _), (_ || _), (_ || _).
Qed.

(** The handler of process start blocks whenever the store is open and the
    process holds a file open. *)
Lemma handleProcessExec_blocks (os : OS) (m : es_message_t) (c : Controller) :
  databaseMutex c = false → is_Some (database c) →
  getProcessOpenFiles os (audit_token_to_pid (process m)) ≠ [] →
  returned (ProcessMonitoring.handleProcessExec os m c) = false.
Proof.
  intros Hfree Hdb Hfiles.
  unfold ProcessMonitoring.handleProcessExec, bind, modify.
  apply logProcessEvent_blocks; [done..|].
  unfold ProcessMonitoring.exec_snapshot.
  by rewrite fold_classify_library_openFiles.
Qed.

(** For instance, the start of a process that holds a file open is never
    followed by the handling of another message. *)
Example exec_with_open_file_blocks :
  controllers_after
    [ (recorder_os, message_on ES_EVENT_TYPE_NOTIFY_EXEC None);
      (recorder_os, message_on ES_EVENT_TYPE_AUTH_OPEN (Some "/tmp/a"%string)) ]
    opened
  = [ final (ProcessMonitoring.handleProcessExec recorder_os
               (message_on ES_EVENT_TYPE_NOTIFY_EXEC None) opened) ] ∧
  (ProcessMonitoring.handleESEvent recorder_os opened
     (message_on ES_EVENT_TYPE_NOTIFY_EXEC None)).1 = [].
Proof. split; vm_compute; reflexivity. Qed.

(** ** The argument block *)

Lemma is_nul_NUL : ProcArgs.is_nul ProcArgs.NUL = true.
Proof. reflexivity. Qed.

Lemma skip_string_shorter (a : ascii) (ptr : list ascii) :
  (length (ProcArgs.skip_string (a :: ptr)) ≤ length ptr)%nat.
Proof.
  revert a. induction ptr as [|b ptr IH]; intros a; simpl.
  - by destruct (ProcArgs.is_nul a).
  - destruct (ProcArgs.is_nul a); [simpl; lia|].
    specialize (IH b). simpl in IH. lia.
Qed.

(** With fuel for every byte, the loop under [// Skip arguments] ends at the
    end of the buffer or on a [NUL]. *)
Lemma skip_arguments_stops (fuel : nat) (ptr : list ascii) :
  (length ptr < fuel)%nat →
  ProcArgs.is_nul (ProcArgs.deref (ProcArgs.skip_arguments fuel ptr)) = true.
Proof.
  revert ptr. induction fuel as [|fuel IH]; intros ptr Hfuel; [lia|].
  destruct ptr as [|a ptr]; [done|]. simpl.
  destruct (ProcArgs.is_nul a) eqn:Ha; [done|].
  apply IH. pose proof (skip_string_shorter a ptr) as Hshort.
  simpl in *. rewrite Ha in Hshort. lia.
Qed.

Lemma environment_at_nul (fuel : nat) (ptr : list ascii)
    (env : gmap string string) :
  ProcArgs.is_nul (ProcArgs.deref ptr) = true →
  ProcArgs.environment fuel ptr env = env.
Proof.
  intros Hnul. destruct fuel as [|fuel]; [done|].
  destruct ptr as [|a ptr]; [done|]. simpl in *. by rewrite Hnul.
Qed.

(** X1: [getProcessEnvironment] returns an empty map whatever the call
    stored in the buffer: the loop that skips the arguments stops only where
    the loop that reads the variables stops too. *)
Theorem X1_environment_always_empty (sysctl : option (list ascii)) :
  ProcArgs.getProcessEnvironment sysctl = ∅.
Proof.
  destruct sysctl as [buffer|]; [|done].
  unfold ProcArgs.getProcessEnvironment.
  apply environment_at_nul, skip_arguments_stops. lia.
Qed.

Lemma c_str_chars (s : string) (rest : list ascii) :
  nul_free s → ProcArgs.c_str (chars s ++ ProcArgs.NUL :: rest) = s.
Proof.
  unfold nul_free, chars. induction s as [|a s IH]; simpl; intros Hfree.
  - done.
  - inversion Hfree as [|? ? Ha Hs]; subst. rewrite Ha. f_equal. by apply IH.
Qed.

Lemma length_chars (s : string) : length (chars s) = String.length s.
Proof.
  unfold chars. induction s as [|a s IH]; simpl; [done|]. by rewrite IH.
Qed.

Lemma next_string_chars (s : string) (rest : list ascii) (room : Z) :
  nul_free s → Z.of_nat (String.length s) ≤ room →
  ProcArgs.next_string (chars s ++ ProcArgs.NUL :: rest) room
  = (rest, room - Z.of_nat (String.length s) - 1).
Proof.
  unfold nul_free, chars. revert room.
  induction s as [|a s IH]; intros room Hfree Hroom.
  - simpl. f_equal. lia.
  - inversion Hfree as [|? ? Ha Hs]; subst.
    cbn [list_ascii_of_string app ProcArgs.next_string String.length]
      in Hroom |- *.
    rewrite Ha. cbn [negb andb].
    rewrite Nat2Z.inj_succ in Hroom |- *.
    destruct (0 <? room) eqn:Hpos; [|apply Z.ltb_ge in Hpos; lia].
    rewrite IH; [f_equal; lia | done | lia].
Qed.

(** [cmdline] after the strings of [l] have been appended to it. *)
Lemma arguments_strings (l : list string) (tail : list ascii) (fuel : nat)
    (room : Z) (cmdline : string) :
  Forall (fun s => s ≠ EmptyString ∧ nul_free s) l →
  (length (c_strings l ++ tail) ≤ fuel)%nat →
  Z.of_nat (length (c_strings l)) ≤ room →
  (∃ rest, tail = ProcArgs.NUL :: rest) ∨
    room = Z.of_nat (length (c_strings l)) →
  ProcArgs.arguments fuel (c_strings l ++ tail) room cmdline
  = fold_left
      (fun acc s =>
         (match acc with EmptyString => acc | _ => acc +:+ " " end) +:+ s)
      l cmdline.
Proof.
  revert fuel room cmdline.
  induction l as [|s l IH]; intros fuel room cmdline Hok Hfuel Hroom Hend.
  - simpl in *. destruct fuel as [|fuel]; [done|]. simpl.
    destruct Hend as [[rest ->]| ->]; [|done].
    simpl. by rewrite andb_false_r.
  - inversion Hok as [|? ? [Hne Hfree] Hrest]; subst.
    unfold c_strings in *. cbn [map concat] in *.
    rewrite <- !app_assoc in *. cbn [app] in *.
    rewrite !length_app in Hfuel, Hroom. cbn [length] in Hfuel, Hroom.
    rewrite length_chars in Hfuel, Hroom.
    destruct fuel as [|fuel]; [lia|].
    cbn [ProcArgs.arguments fold_left].
    assert ((0 <? room) = true) as -> by (apply Z.ltb_lt; lia).
    assert (ProcArgs.is_nul
              (ProcArgs.deref
                 (chars s ++ ProcArgs.NUL :: concat
                    (map (fun s => chars s ++ [ProcArgs.NUL]) l) ++ tail))
            = false) as ->.
    { destruct s as [|a s]; [done|]. by inversion Hfree. }
    cbn [negb andb]. rewrite c_str_chars by done.
    rewrite next_string_chars by (done || lia).
    apply IH; [done| |lia|].
    + rewrite length_app in *. lia.
    + destruct Hend as [?| ->]; [by left|right].
      rewrite !length_app. cbn [length]. rewrite length_chars. lia.
Qed.

Lemma string_append_assoc (s t u : string) :
  (s +:+ t) +:+ u = s +:+ (t +:+ u).
Proof.
  induction s as [|a s IH]; [done|].
  change (String a ((s +:+ t) +:+ u) = String a (s +:+ (t +:+ u))).
  by f_equal.
Qed.

Lemma concat_spaces (l : list string) (s : string) :
  Forall (fun s => s ≠ EmptyString ∧ nul_free s) l → s ≠ EmptyString →
  fold_left
    (fun acc s =>
       (match acc with EmptyString => acc | _ => acc +:+ " " end) +:+ s)
    l s
  = String.concat " " (s :: l).
Proof.
  revert s. induction l as [|t l IH]; intros s Hok Hs; [done|].
  inversion Hok as [|? ? [Ht _] Hrest]; subst.
  cbn [fold_left]. destruct s as [|a s]; [done|].
  rewrite IH; [|done|by destruct t].
  change (String.concat " " (String a s :: t :: l))
    with (String a s +:+ " " +:+ String.concat " " (t :: l)).
  destruct l as [|u l]; cbn [String.concat];
    by rewrite !string_append_assoc.
Qed.

(** X2: on a block that holds four bytes, the path, and then non-empty
    strings up to an empty string or to the size the call stored,
    [getProcessCommandLine] returns those strings joined by single spaces
    (the empty command line when the path's terminator is followed by
    another [NUL]). *)
Theorem X2_command_line_joins_strings (argc : list ascii) (path : string)
    (strings : list string) (tail : list ascii) (size : Z) :
  let block := argc ++ chars path ++ ProcArgs.NUL :: c_strings strings in
  length argc = 4%nat → nul_free path →
  Forall (fun s => s ≠ EmptyString ∧ nul_free s) strings →
  Z.of_nat (length block) ≤ size →
  (∃ rest, tail = ProcArgs.NUL :: rest) ∨ size = Z.of_nat (length block) →
  ProcArgs.getProcessCommandLine (Some (block ++ tail, size))
  = String.concat " " strings.
Proof.
  intros block Hargc Hpath Hok Hsize Hend. subst block.
  unfold ProcArgs.getProcessCommandLine.
  replace ((argc ++ chars path ++ ProcArgs.NUL :: c_strings strings) ++ tail)
    with (argc ++ chars path ++ ProcArgs.NUL :: c_strings strings ++ tail)
    by (by rewrite <- !app_assoc).
  rewrite drop_app_length' by done.
  rewrite !length_app in Hsize, Hend. cbn [length] in Hsize, Hend.
  rewrite length_chars, Hargc in Hsize, Hend.
  rewrite next_string_chars by (done || lia).
  rewrite arguments_strings; [|done|done|lia|].
  - destruct strings as [|s l]; [done|].
    inversion Hok as [|? ? [Hs _] Hrest]; subst.
    cbn [fold_left]. by apply concat_spaces.
  - destruct Hend as [?| ->]; [by left|right]. lia.
Qed.

Lemma X2_command_line_joins_strings_witness :
  ProcArgs.getProcessCommandLine
    (Some (ls_block, Z.of_nat (length ls_block) - 1))
  = "ls -l"%string.
Proof.
  apply (X2_command_line_joins_strings
           [ "002"; "000"; "000"; "000" ]%char "/bin/ls"
           [ "ls"; "-l" ]%string [ ProcArgs.NUL ] 18).
  - reflexivity.
  - repeat constructor.
  - repeat constructor; discriminate.
  - vm_compute. discriminate.
  - left. by exists [].
Defined.

(** ** Enough fuel *)

Lemma next_string_shorter (a : ascii) (args : list ascii) (room : Z) :
  (length (ProcArgs.next_string (a :: args) room).1 ≤ length args)%nat.
Proof.
  revert a room. induction args as [|b args IH]; intros a room; simpl.
  - by destruct (negb (ProcArgs.is_nul a) && (0 <? room)).
  - destruct (negb (ProcArgs.is_nul a) && (0 <? room)); [|simpl; lia].
    specialize (IH b (room - 1)). simpl in IH. lia.
Qed.

(** The fuel [getProcessCommandLine] gives its loop is never what ends it:
    any fuel that covers the remaining bytes gives the same command line. *)
Lemma arguments_fuel (fuel fuel' : nat) (args : list ascii) (room : Z)
    (cmdline : string) :
  (length args ≤ fuel)%nat → (length args ≤ fuel')%nat →
  ProcArgs.arguments fuel args room cmdline
  = ProcArgs.arguments fuel' args room cmdline.
Proof.
  revert fuel' args room cmdline.
  induction fuel as [|fuel IH];
    intros [|fuel'] [|a args] room cmdline Hfuel Hfuel';
    simpl in Hfuel, Hfuel'; try lia;
    try (simpl; rewrite ?andb_false_r; done).
  cbn [ProcArgs.arguments].
  - destruct ((0 <? room)
              && negb (ProcArgs.is_nul (ProcArgs.deref (a :: args))));
      [|done].
    pose proof (next_string_shorter a args room) as Hshort.
    destruct (ProcArgs.next_string (a :: args) room) as [args' room'].
    simpl in Hshort. apply IH; lia.
Qed.

(** ** The command channel *)

Lemma get_string_command (command : string) :
  Main.xpc_dictionary_get_string (<["command" := Main.xpc_string command]> ∅)
    "command"
  = Some command.
Proof.
  unfold Main.xpc_dictionary_get_string. by rewrite lookup_insert_eq.
Qed.

(** X3: whatever the IOKit lookups answer, after each of the four policy
    commands [get_status] reports the flag as commanded and the other flag
    as it was. *)
Theorem X3_status_follows_commands (os os' : OS) (c : Controller) :
  status_after os os' "disable_microphone" c = Some (false, cameraEnabled c) ∧
  status_after os os' "enable_microphone" c = Some (true, cameraEnabled c) ∧
  status_after os os' "disable_camera" c = Some (microphoneEnabled c, false) ∧
  status_after os os' "enable_camera" c = Some (microphoneEnabled c, true).
Proof.
  unfold status_after, Main.message_handler, Main.command_message.
  rewrite !get_string_command. by repeat split.
Qed.

(** X4: a message that is not a dictionary or has no string under
    [command] gets no reply; an unknown command gets a reply with
    [success] false and the error text; none of them changes the
    controller. *)
Theorem X4_unknown_command_rejected (os : OS) (c : Controller) :
  Main.message_handler os Main.xpc_other c = (None, c) ∧
  (∀ entries,
     Main.xpc_dictionary_get_string entries "command" = None →
     Main.message_handler os (Main.xpc_dictionary entries) c = (None, c)) ∧
  (∀ entries command,
     Main.xpc_dictionary_get_string entries "command" = Some command →
     command ∉ known_commands →
     ∃ reply,
       Main.message_handler os (Main.xpc_dictionary entries) c
         = (Some reply, c) ∧
       reply !! "success"%string = Some (Main.xpc_bool false) ∧
       reply !! "error"%string = Some (Main.xpc_string "Unknown command") ∧
       reported_status (Some reply) = None).
Proof.
  split; [done|split].
  - intros entries Hnone. unfold Main.message_handler. by rewrite Hnone.
  - intros entries command Hsome Hunknown.
    unfold Main.message_handler. rewrite Hsome.
    unfold known_commands in Hunknown.
    rewrite !not_elem_of_cons in Hunknown.
    destruct Hunknown as (H1 & H2 & H3 & H4 & H5 & _).
    apply String.eqb_neq in H1, H2, H3, H4, H5.
    rewrite H1, H2, H3, H4, H5.
    eexists. split; [done|]. by repeat split.
Qed.

Lemma X4_unknown_command_rejected_witness :
  (Main.message_handler quiet_os (Main.command_message "reboot") microphone_off).2
  = microphone_off.
Proof.
  destruct (X4_unknown_command_rejected quiet_os microphone_off)
    as (_ & _ & Hunknown).
  destruct (Hunknown (<["command" := Main.xpc_string "reboot"]> ∅)
              "reboot"%string) as (reply & Hrun & _).
  - apply get_string_command.
  - unfold known_commands. rewrite !not_elem_of_cons.
    repeat split; try discriminate. apply not_elem_of_nil.
  - unfold Main.command_message. by rewrite Hrun.
Defined.

(** X5: the decision for a device open follows the last command.  After
    [disable_camera] a path with a video marker and no audio marker is
    denied, after [enable_camera] it is allowed; after [disable_microphone]
    a path with an audio marker is denied, after [enable_microphone] it is
    allowed. *)
Theorem X5_commands_drive_the_decision (os : OS) (c : Controller)
    (m : es_message_t) (path : string) :
  event_type m = ES_EVENT_TYPE_AUTH_OPEN →
  open_file_path (event m) = Some path →
  let decision command :=
    (AudioVideoController.handleESEvent
       (Main.message_handler os (Main.command_message command) c).2 m).1 in
  (has_audio_marker path →
     decision "disable_microphone"%string = [ES_AUTH_RESULT_DENY] ∧
     decision "enable_microphone"%string = [ES_AUTH_RESULT_ALLOW]) ∧
  (¬ has_audio_marker path → has_video_marker path →
     decision "disable_camera"%string = [ES_AUTH_RESULT_DENY] ∧
     decision "enable_camera"%string = [ES_AUTH_RESULT_ALLOW]).
Proof.
  intros Htype Hpath.
  unfold Main.message_handler, Main.command_message.
  rewrite !get_string_command. cbn [String.eqb]. simpl.
  unfold AudioVideoController.handleESEvent. rewrite Htype, Hpath. simpl.
  pose proof (audio_device_path_spec path) as Haudio.
  pose proof (video_device_path_spec path) as Hvideo.
  destruct (AudioVideoController.audio_device_path path),
    (AudioVideoController.video_device_path path);
    repeat split; intros; simpl; intuition congruence.
Qed.

Lemma X5_commands_drive_the_decision_witness :
  (AudioVideoController.handleESEvent
     (Main.message_handler quiet_os (Main.command_message "disable_camera")
        opened).2
     (message_on ES_EVENT_TYPE_AUTH_OPEN (Some "/dev/video0"%string))).1
  = [ES_AUTH_RESULT_DENY].
Proof.
  destruct (X5_commands_drive_the_decision quiet_os opened
              (message_on ES_EVENT_TYPE_AUTH_OPEN (Some "/dev/video0"%string))
              "/dev/video0"%string eq_refl eq_refl) as [_ Hvideo].
  apply Hvideo.
  - intros Haudio. apply audio_device_path_spec in Haudio. discriminate.
  - left. exists ""%string, "0"%string. reflexivity.
Defined.

(** ** What the audit store and the handlers leave alone *)

Lemma respects_get_bind (R : relation Controller) {A B}
    (f : Controller → A) (k : A → M B) :
  (∀ c, R c (final (k (f c) c))) → respects R (bind (get f) k).
Proof. intros Hk c. apply Hk. Qed.

Section logging_frame.
Context (R : relation Controller) `{!PreOrder R}.
Hypothesis Hmutex : ∀ b c, R c (set_databaseMutex b c).
Hypothesis Hwrite : ∀ ins, handler_write ins → respects R (sqlite3_insert ins).

Lemma frame_lock : respects R pthread_mutex_lock.
Proof. apply respects_lock; [apply _|]. apply Hmutex. Qed.

Lemma frame_unlock : respects R pthread_mutex_unlock.
Proof. apply respects_modify. apply Hmutex. Qed.

Lemma frame_logFileAccess (access : FileAccess) :
  respects R (logFileAccess access).
Proof.
  unfold logFileAccess.
  respects_step; [apply frame_lock|].
  respects_step; [apply Hwrite; constructor | apply frame_unlock].
Qed.

Lemma frame_logSystemCall (os : OS) (pid : Z) (syscall args : string) :
  respects R (logSystemCall os pid syscall args).
Proof.
  unfold logSystemCall.
  respects_step; [apply frame_lock|].
  respects_step; [apply Hwrite; constructor | apply frame_unlock].
Qed.

Lemma frame_logProcessEvent (process : ProcessInfo) (event : string) :
  respects R (logProcessEvent process event).
Proof.
  unfold logProcessEvent.
  respects_step; [apply frame_lock|].
  respects_step; [|apply frame_unlock].
  apply respects_bind; [apply _|respects_step|intros [db|]]; [|respects_step].
  respects_step; [apply Hwrite; constructor|].
  respects_step.
  { apply respects_for_each; [apply _|]. intros file.
    apply frame_logFileAccess. }
  respects_step; (apply respects_for_each; [apply _|]); intros ?;
    apply Hwrite; constructor.
Qed.
End logging_frame.

Section handler_frame.
Context (R : relation Controller) `{!PreOrder R}.
Hypothesis Hmutex : ∀ b c, R c (set_databaseMutex b c).
Hypothesis Hwrite : ∀ ins, handler_write ins → respects R (sqlite3_insert ins).
Hypothesis Hregistry : ∀ m c, R c (set_runningProcesses m c).
Hypothesis Hrecent : ∀ l c, R c (set_recentFileAccess l c).

Lemma frame_handleFileOpen (os : OS) (message : es_message_t) :
  respects R (ProcessMonitoring.handleFileOpen os message).
Proof.
  unfold ProcessMonitoring.handleFileOpen.
  destruct (open_file_path (event message)); [|respects_step].
  respects_step; [respects_step|].
  respects_step; [respects_step|].
  respects_step; [by apply frame_logFileAccess|].
  respects_step; apply respects_modify; intros c; [apply Hrecent|].
  destruct (10000 <? _); [apply Hrecent | reflexivity].
Qed.

(** The handlers of every message but exec and exit. *)
Lemma frame_route_other (os : OS) (message : es_message_t) :
  event_type message ≠ ES_EVENT_TYPE_NOTIFY_EXEC →
  event_type message ≠ ES_EVENT_TYPE_NOTIFY_EXIT →
  respects R (ProcessMonitoring.route os message).
Proof.
  intros Hexec Hexit.
  unfold ProcessMonitoring.route, ProcessMonitoring.handleMmap,
    ProcessMonitoring.handleSignal, ProcessMonitoring.handleFork,
    ProcessMonitoring.handleSetuid, ProcessMonitoring.handleFileWrite,
    ProcessMonitoring.handleFileDelete.
  destruct (event_type message); try done;
    try (apply respects_ret; apply _);
    try (by apply frame_logSystemCall);
    try (by apply frame_handleFileOpen);
    try (destruct (write_target_path (event message));
         [by apply frame_logFileAccess | apply respects_ret; apply _]);
    try (destruct (unlink_target_path (event message));
         [by apply frame_logFileAccess | apply respects_ret; apply _]).
Qed.

Lemma frame_route (os : OS) (message : es_message_t) :
  respects R (ProcessMonitoring.route os message).
Proof.
  destruct (decide (event_type message = ES_EVENT_TYPE_NOTIFY_EXEC))
    as [Hexec|Hexec].
  { unfold ProcessMonitoring.route. rewrite Hexec.
    unfold ProcessMonitoring.handleProcessExec.
    respects_step; [|by apply frame_logProcessEvent].
    apply respects_modify. intros c. apply Hregistry. }
  destruct (decide (event_type message = ES_EVENT_TYPE_NOTIFY_EXIT))
    as [Hexit|Hexit]; [|by apply frame_route_other].
  unfold ProcessMonitoring.route. rewrite Hexit.
  unfold ProcessMonitoring.handleProcessExit.
  apply respects_bind; [apply _|respects_step|intros [info|]];
    [|respects_step].
  respects_step; [by apply frame_logProcessEvent|].
  apply respects_modify. intros c. apply Hregistry.
Qed.
End handler_frame.

(** A relation that does not read the audit store holds across every
    insertion. *)
Lemma store_only_insert (R : relation Controller) `{!Reflexive R}
    (ins : AuditDb → AuditDb) :
  (∀ d c, R c (set_database d c)) → respects R (sqlite3_insert ins).
Proof.
  intros Hstore. apply respects_modify. intros c.
  destruct (database c); [apply Hstore | reflexivity].
Qed.

Global Instance same_policy_preorder : PreOrder same_policy.
Proof.
  split; [by intros c|].
  intros c1 c2 c3 [Hm Hc] [Hm' Hc']. split; congruence.
Qed.

(** X6: no security message changes the policy: after either callback has
    handled a message, or has blocked on it, both flags are what they
    were. *)
Theorem X6_messages_keep_the_policy (os : OS) (c : Controller)
    (m : es_message_t) :
  same_policy c (final (ProcessMonitoring.handleESEvent os c m).2) ∧
  same_policy c (final (AudioVideoController.handleESEvent c m).2).
Proof.
  split; [|done]. rewrite final_handleESEvent.
  apply (frame_route same_policy); try done.
  intros ins _. by apply store_only_insert.
Qed.

(** ** Process discovery *)

Global Instance discovery_only_preorder : PreOrder discovery_only.
Proof.
  split.
  - intros c. by repeat split.
  - intros c1 c2 c3 (Hp & Hr & Hs) (Hp' & Hr' & Hs').
    split; [by etrans|]. split; [congruence | by etrans].
Qed.

Lemma respects_discover (os : OS) (pid : Z) :
  respects discovery_only (ProcessDiscovery.discover os pid).
Proof.
  unfold ProcessDiscovery.discover. apply respects_get_bind. intros c.
  destruct (runningProcesses c !! pid) as [info|] eqn:Hknown; [done|].
  unfold bind, modify.
  set (c1 := set_runningProcesses _ c).
  transitivity c1.
  - repeat split. by apply insert_subseteq.
  - apply (frame_logProcessEvent discovery_only); [done|].
    intros ins _. by apply store_only_insert.
Qed.

Lemma respects_scanRunningProcesses (os : OS) (procs : option (list Z)) :
  respects discovery_only (ProcessDiscovery.scanRunningProcesses os procs).
Proof.
  unfold ProcessDiscovery.scanRunningProcesses.
  destruct procs as [pids|]; [|by apply respects_ret; apply _].
  apply respects_for_each; [apply _|]. apply respects_discover.
Qed.

(** X7: process discovery never updates or removes what the registry
    knows: whatever the scan finds, and whether it returns or blocks, every
    snapshot cached before is cached unchanged after, and the policy and the
    recent-access buffer are untouched. *)
Theorem X7_discovery_keeps_known_snapshots (os : OS)
    (procs : option (list Z)) (c : Controller) (pid : Z)
    (info : ProcessInfo) :
  let c' := final (ProcessDiscovery.scanRunningProcesses os procs c) in
  runningProcesses c !! pid = Some info →
  runningProcesses c' !! pid = Some info ∧
  same_policy c c' ∧
  recentFileAccess c' = recentFileAccess c.
Proof.
  intros c' Hknown.
  destruct (respects_scanRunningProcesses os procs c) as (Hp & Hr & Hs).
  split; [|done]. by eapply lookup_weaken.
Qed.

Lemma X7_discovery_keeps_known_snapshots_witness :
  runningProcesses
    (final (ProcessDiscovery.scanRunningProcesses recorder_os
              (Some listed_pids) cached_500)) !! 500
  = Some (analyzeProcess quiet_os 500).
Proof.
  apply (X7_discovery_keeps_known_snapshots recorder_os (Some listed_pids)
           cached_500 500 (analyzeProcess quiet_os 500)).
  reflexivity.
Defined.

Lemma discover_returned (os : OS) (pid : Z) (c c' : Controller) (u : unit) :
  ProcessDiscovery.discover os pid c = Returned u c' →
  is_Some (runningProcesses c' !! pid).
Proof.
  unfold ProcessDiscovery.discover, bind, get.
  destruct (runningProcesses c !! pid) as [info|] eqn:Hknown.
  - unfold ret. intros [= _ <-]. by rewrite Hknown.
  - unfold modify. set (c1 := set_runningProcesses _ c). intros Hlog.
    destruct (respects_logProcessEvent (analyzeProcess os pid) "DISCOVERED" c1)
      as (_ & _ & Hprocs & _).
    rewrite Hlog in Hprocs. simpl in Hprocs. rewrite Hprocs.
    subst c1. simpl. rewrite lookup_insert_eq. by eexists.
Qed.

(** X8: when a scan returns, the registry holds a snapshot for every
    process id the scan listed. *)
Theorem X8_discovery_covers_the_list (os : OS) (pids : list Z)
    (c c' : Controller) :
  ProcessDiscovery.scanRunningProcesses os (Some pids) c = Returned tt c' →
  ∀ pid, pid ∈ pids → is_Some (runningProcesses c' !! pid).
Proof.
  unfold ProcessDiscovery.scanRunningProcesses.
  revert c. induction pids as [|p pids IH]; intros c Hrun pid Hin.
  - by apply elem_of_nil in Hin.
  - simpl in Hrun. unfold bind in Hrun.
    destruct (ProcessDiscovery.discover os p c) as [u c1|c1] eqn:Hfirst;
      [|done].
    apply elem_of_cons in Hin as [->|Hin]; [|by eapply IH].
    apply discover_returned in Hfirst as [info Hinfo].
    pose proof (respects_for_each discovery_only pids
                  (ProcessDiscovery.discover os) (respects_discover os) c1)
      as (_ & _ & Hsub).
    rewrite Hrun in Hsub. simpl in Hsub.
    exists info. by eapply lookup_weaken.
Qed.

Lemma X8_discovery_covers_the_list_witness :
  is_Some
    (runningProcesses
       (final (ProcessDiscovery.scanRunningProcesses quiet_os
                 (Some listed_pids) opened)) !! 1).
Proof.
  apply (X8_discovery_covers_the_list quiet_os listed_pids opened
           (final (ProcessDiscovery.scanRunningProcesses quiet_os
                     (Some listed_pids) opened))).
  - vm_compute. reflexivity.
  - left.
Defined.

Lemma for_each_discover_known (os : OS) (pids : list Z) (c : Controller) :
  Forall (fun pid => is_Some (runningProcesses c !! pid)) pids →
  for_each pids (ProcessDiscovery.discover os) c = Returned tt c.
Proof.
  intros Hknown.
  induction Hknown as [|pid pids [info Hinfo] _ IH]; [done|].
  simpl. unfold bind at 1. unfold ProcessDiscovery.discover at 1.
  unfold bind, get. rewrite Hinfo. unfold ret. exact IH.
Qed.

(** X9: a scan that finds only processes the registry knows, and a scan
    whose [sysctl] fails, return without touching the controller: no
    snapshot is refreshed and nothing is logged. *)
Theorem X9_discovery_of_known_processes_is_silent (os : OS)
    (pids : list Z) (c : Controller) :
  Forall (fun pid => is_Some (runningProcesses c !! pid)) pids →
  ProcessDiscovery.scanRunningProcesses os (Some pids) c = Returned tt c ∧
  ProcessDiscovery.scanRunningProcesses os None c = Returned tt c.
Proof.
  intros Hknown. split; [|done]. by apply for_each_discover_known.
Qed.

Lemma X9_discovery_of_known_processes_is_silent_witness :
  ProcessDiscovery.scanRunningProcesses recorder_os (Some [500; 500])
    cached_500
  = Returned tt cached_500.
Proof.
  apply (X9_discovery_of_known_processes_is_silent recorder_os [500; 500]
           cached_500).
  repeat constructor; by eexists.
Defined.

(** ** A scan that leaves the mutex held *)

(** Where [logProcessEvent] blocks, it holds the mutex. *)
Lemma logProcessEvent_blocks_held (process : ProcessInfo) (event : string)
    (c : Controller) :
  databaseMutex c = false → is_Some (database c) →
  ProcessInfo.openFiles process ≠ [] →
  ∃ c', logProcessEvent process event c = Blocked c' ∧
        databaseMutex c' = true.
Proof.
  intros Hfree [db Hdb] Hfiles.
  destruct (ProcessInfo.openFiles process) as [|file files] eqn:Hopen; [done|].
  destruct c as [mic cam db' mx mon procs conns recent].
  simpl in Hfree, Hdb. subst mx db'.
  unfold logProcessEvent, bind, pthread_mutex_lock, get, sqlite3_insert,
    modify. simpl. rewrite Hopen. simpl. by eexists.
Qed.

Lemma logProcessEvent_registry (process : ProcessInfo) (event : string)
    (c : Controller) :
  runningProcesses (final (logProcessEvent process event c)) =
    runningProcesses c.
Proof.
  by destruct (respects_logProcessEvent process event c) as (_ & _ & ? & _).
Qed.

Global Instance store_open_kept_preorder : PreOrder store_open_kept.
Proof.
  unfold store_open_kept. split; [by intros c ?|]. intros c1 c2 c3. tauto.
Qed.

Lemma logProcessEvent_store_open (process : ProcessInfo) (event : string)
    (c : Controller) :
  is_Some (database c) →
  is_Some (database (final (logProcessEvent process event c))).
Proof.
  apply (frame_logProcessEvent store_open_kept); [by intros b c1 Hopen|].
  intros ins _. apply respects_modify. intros c1 [db Hdb].
  rewrite Hdb. by eexists.
Qed.

(** The scan of a list that holds a process the registry does not know,
    with a file open. *)
Lemma for_each_discover_blocks (os : OS) (pids : list Z) (pid : Z)
    (c : Controller) :
  pid ∈ pids → runningProcesses c !! pid = None →
  databaseMutex c = false → is_Some (database c) →
  getProcessOpenFiles os pid ≠ [] →
  ∃ c', for_each pids (ProcessDiscovery.discover os) c = Blocked c' ∧
        databaseMutex c' = true.
Proof.
  intros Hin Hnew Hfree Hdb Hfiles. revert c Hnew Hfree Hdb.
  induction pids as [|q pids IH]; intros c Hnew Hfree Hdb.
  { by apply elem_of_nil in Hin. }
  cbn [for_each]. unfold bind at 1. unfold ProcessDiscovery.discover at 1.
  unfold bind at 1, get.
  destruct (runningProcesses c !! q) as [known|] eqn:Hq.
  { unfold ret. apply elem_of_cons in Hin as [->|Hin]; [congruence|].
    by apply IH. }
  unfold bind at 1, modify.
  set (c1 := set_runningProcesses _ c).
  destruct (decide (getProcessOpenFiles os q = [])) as [Hnone|Hsome].
  - destruct (logProcessEvent_returns (analyzeProcess os q) "DISCOVERED"
                Hnone c1 Hfree) as (u & c2 & Hlog & Hfree2).
    pose proof (logProcessEvent_registry (analyzeProcess os q) "DISCOVERED"
                  c1) as Hregistry.
    pose proof (logProcessEvent_store_open (analyzeProcess os q)
                  "DISCOVERED" c1 Hdb) as Hdb2.
    rewrite Hlog in Hregistry, Hdb2 |- *. simpl in Hregistry, Hdb2.
    apply elem_of_cons in Hin as [->|Hin]; [done|].
    apply IH; [done| |done..].
    rewrite Hregistry. subst c1. simpl.
    rewrite lookup_insert_ne; [done|]. by intros ->.
  - destruct (logProcessEvent_blocks_held (analyzeProcess os q)
                "DISCOVERED" c1) as (c' & Hlog & Hheld); [done..|].
    rewrite Hlog. by exists c'.
Qed.

(** X10: with the audit store open and the mutex free, a scan whose list
    holds a process that the registry does not know and that has a file
    open never returns, wherever in the list the process stands, and the
    scanning thread is left holding the mutex. *)
Theorem X10_discovery_blocks_with_the_mutex_held (os : OS)
    (pids : list Z) (pid : Z) (c : Controller) :
  let scan := ProcessDiscovery.scanRunningProcesses os (Some pids) c in
  pid ∈ pids → runningProcesses c !! pid = None →
  databaseMutex c = false → is_Some (database c) →
  getProcessOpenFiles os pid ≠ [] →
  returned scan = false ∧ databaseMutex (final scan) = true.
Proof.
  intros scan Hin Hnew Hfree Hdb Hfiles.
  destruct (for_each_discover_blocks os pids pid c) as (c' & Hscan & Hheld);
    [done..|].
  subst scan. unfold ProcessDiscovery.scanRunningProcesses.
  by rewrite Hscan.
Qed.

Lemma X10_discovery_blocks_with_the_mutex_held_witness :
  returned
    (ProcessDiscovery.scanRunningProcesses one_recorder_os (Some [2; 500; 7])
       opened) = false ∧
  databaseMutex
    (final (ProcessDiscovery.scanRunningProcesses one_recorder_os
              (Some [2; 500; 7]) opened)) = true.
Proof.
  apply (X10_discovery_blocks_with_the_mutex_held one_recorder_os [2; 500; 7]
           500 opened).
  - right. left.
  - reflexivity.
  - reflexivity.
  - by eexists.
  - discriminate.
Defined.

(** ** The registry under exec and exit *)

Lemma handleProcessExit_registry (m : es_message_t) (c : Controller) :
  runningProcesses (final (ProcessMonitoring.handleProcessExit m c)) =
    if returned (ProcessMonitoring.handleProcessExit m c)
    then delete (audit_token_to_pid (process m)) (runningProcesses c)
    else runningProcesses c.
Proof.
  unfold ProcessMonitoring.handleProcessExit, bind, get.
  destruct (runningProcesses c !! audit_token_to_pid (process m))
    as [info|] eqn:Hknown; simpl.
  - pose proof (logProcessEvent_registry info "EXIT" c) as Hlog.
    destruct (logProcessEvent info "EXIT" c) as [u c1|c1]; simpl in *.
    + by rewrite Hlog.
    + done.
  - by rewrite delete_id.
Qed.

(** X11: exec and exit touch one registry entry.  After an exec message the
    registry maps the process to the snapshot just built, replacing any
    earlier one, whether or not logging returns; after an exit message that
    returns it has no entry for the process; and both leave the entry of
    every other process as it was. *)
Theorem X11_exec_and_exit_touch_one_entry (os : OS) (m : es_message_t)
    (c : Controller) :
  let pid := audit_token_to_pid (process m) in
  let exec := ProcessMonitoring.handleProcessExec os m c in
  let exit := ProcessMonitoring.handleProcessExit m c in
  runningProcesses (final exec) !! pid
    = Some (ProcessMonitoring.exec_snapshot os m) ∧
  (returned exit = true → runningProcesses (final exit) !! pid = None) ∧
  ∀ other, other ≠ pid →
    runningProcesses (final exec) !! other = runningProcesses c !! other ∧
    runningProcesses (final exit) !! other = runningProcesses c !! other.
Proof.
  intros pid exec exit.
  assert (runningProcesses (final exec) =
            <[pid := ProcessMonitoring.exec_snapshot os m]>
              (runningProcesses c)) as Hexec.
  { subst exec. unfold ProcessMonitoring.handleProcessExec, bind, modify.
    by rewrite logProcessEvent_registry. }
  pose proof (handleProcessExit_registry m c) as Hexit.
  fold exit pid in Hexit.
  split; [|split].
  - by rewrite Hexec, lookup_insert_eq.
  - intros Hret. rewrite Hexit, Hret. apply lookup_delete_eq.
  - intros other Hother. split.
    + by rewrite Hexec, lookup_insert_ne.
    + rewrite Hexit. destruct (returned exit); [|done].
      by rewrite lookup_delete_ne.
Qed.

Lemma X11_exec_and_exit_touch_one_entry_witness :
  runningProcesses
    (final (ProcessMonitoring.handleProcessExit
              (message_on ES_EVENT_TYPE_NOTIFY_EXIT None) cached_500)) !! 500
  = None.
Proof.
  destruct (X11_exec_and_exit_touch_one_entry quiet_os
              (message_on ES_EVENT_TYPE_NOTIFY_EXIT None) cached_500)
    as (_ & Hexit & _).
  apply Hexit. reflexivity.
Defined.

(** ** The registry as a list *)

Global Instance pid_le_transitive : Transitive ProcessDiscovery.pid_le.
Proof. intros p q r. unfold ProcessDiscovery.pid_le. lia. Qed.

Global Instance pid_le_total : Total ProcessDiscovery.pid_le.
Proof. intros p q. unfold ProcessDiscovery.pid_le. lia. Qed.

Lemma in_key_order_Permutation (m : gmap Z ProcessInfo) :
  ProcessDiscovery.in_key_order m ≡ₚ map_to_list m.
Proof. apply merge_sort_Permutation. Qed.

Lemma sorted_keys_increase (l : list (Z * ProcessInfo)) :
  StronglySorted ProcessDiscovery.pid_le l → NoDup l.*1 →
  StronglySorted Z.lt l.*1.
Proof.
  induction 1 as [|p l Hsorted IH Hall]; intros Hnodup; simpl.
  - constructor.
  - apply NoDup_cons in Hnodup as [Hfresh Hnodup].
    constructor; [by apply IH|].
    apply Forall_forall. intros k Hk.
    apply list_elem_of_fmap in Hk as (q & -> & Hq).
    rewrite Forall_forall in Hall. specialize (Hall q Hq).
    unfold ProcessDiscovery.pid_le in Hall.
    assert (q.1 ≠ p.1); [|lia].
    intros Heq. apply Hfresh. rewrite <- Heq.
    apply list_elem_of_fmap. by exists q.
Qed.

(** X12: [getAllProcesses] returns the cached snapshots, one for each
    process id of the registry and no other, in increasing order of the
    process ids they are cached under. *)
Theorem X12_all_processes_lists_the_registry (c : Controller) :
  ∃ entries : list (Z * ProcessInfo),
    ProcessDiscovery.getAllProcesses c = entries.*2 ∧
    (∀ pid info,
       (pid, info) ∈ entries ↔ runningProcesses c !! pid = Some info) ∧
    StronglySorted Z.lt entries.*1 ∧
    length (ProcessDiscovery.getAllProcesses c)
      = base.size (runningProcesses c).
Proof.
  exists (ProcessDiscovery.in_key_order (runningProcesses c)).
  pose proof (in_key_order_Permutation (runningProcesses c)) as Hperm.
  split; [done|]. split; [|split].
  - intros pid info. rewrite Hperm. apply elem_of_map_to_list.
  - apply sorted_keys_increase.
    + apply (StronglySorted_merge_sort _).
    + rewrite Hperm. apply NoDup_fst_map_to_list.
  - unfold ProcessDiscovery.getAllProcesses.
    rewrite length_map, Hperm. apply length_map_to_list.
Qed.

(** ** Writing to the audit store and reading it back *)

Lemma to_uint64_to_int64 (z : Z) :
  0 ≤ z < 2 ^ 64 → to_uint64 (to_int64 z) = z.
Proof.
  intros Hz. unfold to_uint64, to_int64.
  change (2 ^ 64) with 18446744073709551616 in *.
  change (2 ^ 63) with 9223372036854775808.
  destruct (decide (z < 9223372036854775808)) as [Hlow|Hhigh].
  - rewrite (Z.mod_small (z + _)) by lia.
    replace (z + 9223372036854775808 - 9223372036854775808) with z by lia.
    apply Z.mod_small. lia.
  - replace (z + 9223372036854775808)
      with (z - 9223372036854775808 + 1 * 18446744073709551616) by lia.
    rewrite Z.mod_add by lia. rewrite (Z.mod_small (z - _)) by lia.
    replace (z - 9223372036854775808 - 9223372036854775808)
      with (z + -1 * 18446744073709551616) by lia.
    rewrite Z.mod_add by lia. apply Z.mod_small. lia.
Qed.

Lemma access_of_file_access_row (access : FileAccess) :
  0 ≤ FileAccess.timestamp access < 2 ^ 64 →
  access_of_row (file_access_row access) = access.
Proof.
  intros Hts. destruct access as [pid path type ts blocked reason].
  unfold access_of_row, file_access_row. simpl in *.
  rewrite to_uint64_to_int64 by done. by destruct blocked.
Qed.

Lemma log_then_read (access : FileAccess) (c : Controller) :
  databaseMutex c = false → is_Some (database c) →
  ∃ c',
    (logFileAccess access >> getFileAccessHistory) c =
      Returned
        (map access_of_row
           (select_order_by_timestamp_desc_limit file_access.timestamp 5000
              (stored_file_access c ++ [file_access_row access])))
        c' ∧
    stored_file_access c' = stored_file_access c ++ [file_access_row access].
Proof.
  intros Hfree [db Hdb]. unfold bind. rewrite logFileAccess_free by done.
  set (c1 := set_database _ c).
  assert (stored_file_access c1
          = stored_file_access c ++ [file_access_row access]) as Hstored.
  { subst c1. unfold stored_file_access. by rewrite Hdb. }
  exists c1. rewrite getFileAccessHistory_free by done.
  by rewrite Hstored.
Qed.

(** X13: an access that is logged is read back as it was written: while
    the table holds fewer than 5000 rows, the history read after
    [logFileAccess] contains the very record that was logged, and one
    record for each row of the table. *)
Theorem X13_logged_access_is_read_back (access : FileAccess)
    (c : Controller) :
  databaseMutex c = false → is_Some (database c) →
  0 ≤ FileAccess.timestamp access < 2 ^ 64 →
  (length (stored_file_access c) < 5000)%nat →
  ∃ c' accesses,
    (logFileAccess access >> getFileAccessHistory) c = Returned accesses c' ∧
    access ∈ accesses ∧
    length accesses = S (length (stored_file_access c)).
Proof.
  intros Hfree Hdb Hts Hroom.
  destruct (log_then_read access c Hfree Hdb) as (c' & Hrun & _).
  eexists _, _. split; [exact Hrun|].
  unfold select_order_by_timestamp_desc_limit.
  set (rows := stored_file_access c ++ [file_access_row access]).
  pose proof (merge_sort_Permutation
                (newer_first file_access.timestamp) rows) as Hperm.
  assert (length rows = S (length (stored_file_access c))) as Hlen.
  { subst rows. rewrite length_app. simpl. lia. }
  rewrite take_ge by (rewrite (Permutation_length Hperm); lia).
  split.
  - rewrite <- (access_of_file_access_row access Hts).
    apply list_elem_of_fmap. eexists. split; [done|].
    rewrite Hperm. subst rows. apply elem_of_app. right. by left.
  - by rewrite length_map, (Permutation_length Hperm).
Qed.

Lemma X13_logged_access_is_read_back_witness :
  ∃ c' accesses,
    (logFileAccess sample_access >> getFileAccessHistory) history_sample
      = Returned accesses c' ∧
    sample_access ∈ accesses ∧
    length accesses = S (length (stored_file_access history_sample)).
Proof.
  apply (X13_logged_access_is_read_back sample_access history_sample).
  - reflexivity.
  - by eexists.
  - simpl. lia.
  - vm_compute. lia.
Defined.

(** X14: the newest access heads the history: when a logged access carries
    a timestamp greater than that of every stored row, the history read
    after it starts with that access, however many rows the table holds. *)
Theorem X14_newest_access_heads_history (access : FileAccess)
    (c : Controller) :
  databaseMutex c = false → is_Some (database c) →
  0 ≤ FileAccess.timestamp access < 2 ^ 63 →
  Forall (fun row => file_access.timestamp row < FileAccess.timestamp access)
    (stored_file_access c) →
  ∃ c' accesses,
    (logFileAccess access >> getFileAccessHistory) c = Returned accesses c' ∧
    head accesses = Some access.
Proof.
  intros Hfree Hdb Hts Hnewest.
  destruct (log_then_read access c Hfree Hdb) as (c' & Hrun & _).
  eexists _, _. split; [exact Hrun|].
  set (row := file_access_row access).
  set (rows := stored_file_access c ++ [row]).
  assert (file_access.timestamp row = FileAccess.timestamp access) as Hrow.
  { subst row. simpl. by apply to_int64_small. }
  destruct (select_most_recent file_access.timestamp 5000 rows)
    as (Hlen & Hsorted & rest & Hperm & Hacross).
  set (sel := select_order_by_timestamp_desc_limit _ _ _) in *.
  assert (∀ r, r ∈ rows → r = row ∨
               file_access.timestamp r < file_access.timestamp row)
    as Hrows.
  { intros r Hr. subst rows. apply elem_of_app in Hr as [Hr|Hr].
    - right. rewrite Hrow. rewrite Forall_forall in Hnewest. by apply Hnewest.
    - left. by apply list_elem_of_singleton in Hr. }
  destruct sel as [|first sel'] eqn:Hsel.
  { exfalso. subst rows. rewrite length_app in Hlen. cbn [length] in Hlen.
    lia. }
  simpl. f_equal.
  assert (first = row) as ->.
  { destruct (Hrows first) as [->|Hold]; [|done|].
    { rewrite Hperm. by left. }
    exfalso.
    assert (row ∈ first :: sel' ++ rest) as Hin.
    { change (row ∈ (first :: sel') ++ rest). rewrite <- Hperm.
      subst rows. apply elem_of_app. right. by left. }
    apply elem_of_cons in Hin as [->|Hin]; [lia|].
    apply elem_of_app in Hin as [Hin|Hin].
    - apply StronglySorted_inv in Hsorted as [_ Hall].
      rewrite Forall_forall in Hall. specialize (Hall row Hin).
      unfold newer_first in Hall. lia.
    - specialize (Hacross first row). 
      assert (file_access.timestamp row ≤ file_access.timestamp first);
        [|lia].
      apply Hacross; [by left | done]. }
  apply access_of_file_access_row. lia.
Qed.

Lemma X14_newest_access_heads_history_witness :
  ∃ c' accesses,
    (logFileAccess
       {| FileAccess.pid := 500; FileAccess.filePath := "/tmp/b";
          FileAccess.accessType := "WRITE"; FileAccess.timestamp := 10;
          FileAccess.wasBlocked := false; FileAccess.reason := "" |} >>
     getFileAccessHistory) history_sample = Returned accesses c' ∧
    head accesses =
      Some {| FileAccess.pid := 500; FileAccess.filePath := "/tmp/b";
              FileAccess.accessType := "WRITE"; FileAccess.timestamp := 10;
              FileAccess.wasBlocked := false; FileAccess.reason := "" |}.
Proof.
  apply (X14_newest_access_heads_history _ history_sample).
  - reflexivity.
  - by eexists.
  - simpl. lia.
  - set (stored := stored_file_access history_sample).
    vm_compute in stored. subst stored.
    repeat (constructor; [simpl; lia|]). constructor.
Defined.

(** ** [logProcessEvent] *)

Global Instance locked_store_kept_preorder : PreOrder locked_store_kept.
Proof.
  split.
  - by intros c Hheld.
  - intros c1 c2 c3 H12 H23 Hheld.
    destruct (H12 Hheld) as [Hheld2 Heq2].
    destruct (H23 Hheld2) as [Hheld3 Heq3].
    split; [done | congruence].
Qed.

Lemma locked_insert_elsewhere (ins : AuditDb → AuditDb) :
  (∀ db, tbl_file_access (ins db) = tbl_file_access db) →
  respects locked_store_kept (sqlite3_insert ins).
Proof.
  intros Hins. apply respects_modify. intros c Hheld.
  unfold stored_file_access.
  destruct (database c) as [db|] eqn:Hdb; simpl; [|by rewrite Hdb].
  by rewrite Hins.
Qed.

Lemma locked_logFileAccess (access : FileAccess) :
  respects locked_store_kept (logFileAccess access).
Proof. intros c Hheld. by rewrite logFileAccess_held. Qed.

(** X15: [logProcessEvent] writes no row to [file_access]: whatever files
    the snapshot lists as open, and whether the call returns or blocks, the
    table is afterwards what it was. *)
Theorem X15_process_events_log_no_open_file (process : ProcessInfo)
    (event : string) (c : Controller) :
  stored_file_access (final (logProcessEvent process event c))
    = stored_file_access c.
Proof.
  unfold logProcessEvent, bind at 1, pthread_mutex_lock.
  destruct (databaseMutex c) eqn:Hmutex; [done|].
  set (c1 := set_databaseMutex true c).
  set (body := bind (get database) _).
  assert (respects locked_store_kept body) as Hbody.
  { subst body.
    apply respects_bind; [apply _|respects_step|intros [db|]];
      [|respects_step].
    respects_step; [by apply locked_insert_elsewhere|].
    respects_step.
    { apply respects_for_each; [apply _|]. intros file.
      apply locked_logFileAccess. }
    respects_step; (apply respects_for_each; [apply _|]); intros ?;
      by apply locked_insert_elsewhere. }
  destruct (Hbody c1) as [_ Hkept]; [done|].
  unfold bind. destruct (body c1) as [u c2|c2]; simpl in *.
  - unfold stored_file_access in *. simpl. by rewrite Hkept.
  - by rewrite Hkept.
Qed.

(** X16: [logProcessEvent] returns exactly when its thread does not hold
    the mutex and either the audit store is closed or the snapshot lists no
    open file. *)
Theorem X16_process_event_logging_returns_iff (process : ProcessInfo)
    (event : string) (c : Controller) :
  returned (logProcessEvent process event c) = true ↔
  databaseMutex c = false ∧
  (database c = None ∨ ProcessInfo.openFiles process = []).
Proof.
  split.
  - intros Hret.
    destruct (databaseMutex c) eqn:Hmutex.
    { unfold logProcessEvent, bind in Hret.
      by rewrite relock_blocks in Hret. }
    split; [done|].
    destruct (database c) as [db|] eqn:Hdb; [right | by left].
    destruct (ProcessInfo.openFiles process) as [|file files] eqn:Hfiles;
      [done|].
    rewrite logProcessEvent_blocks in Hret; [done..| |]; [by eexists|].
    by rewrite Hfiles.
  - intros [Hfree [Hclosed|Hnone]].
    + destruct c as [mic cam db mx mon procs conns recent].
      simpl in *. by subst.
    + destruct (logProcessEvent_returns process event Hnone c Hfree)
        as (u & c' & -> & _). done.
Qed.

(** ** What changes the registry *)

Global Instance registry_kept_preorder : PreOrder registry_kept.
Proof.
  split; [by intros c|]. unfold registry_kept. intros c1 c2 c3. congruence.
Qed.

(** X17: only exec and exit messages change the registry.  Every other
    message, a fork included, leaves the registry as it was, whether its
    handler returns or blocks. *)
Theorem X17_only_exec_and_exit_change_the_registry (os : OS)
    (c : Controller) (m : es_message_t) :
  event_type m ≠ ES_EVENT_TYPE_NOTIFY_EXEC →
  event_type m ≠ ES_EVENT_TYPE_NOTIFY_EXIT →
  runningProcesses (final (ProcessMonitoring.handleESEvent os c m).2)
    = runningProcesses c.
Proof.
  intros Hexec Hexit. rewrite final_handleESEvent.
  apply (frame_route_other registry_kept); try done.
  intros ins _. by apply store_only_insert.
Qed.

Lemma X17_only_exec_and_exit_change_the_registry_witness :
  runningProcesses
    (final (ProcessMonitoring.handleESEvent quiet_os cached_500
              (message_on ES_EVENT_TYPE_NOTIFY_FORK None)).2)
  = runningProcesses cached_500.
Proof.
  apply (X17_only_exec_and_exit_change_the_registry quiet_os cached_500
           (message_on ES_EVENT_TYPE_NOTIFY_FORK None)); discriminate.
Defined.

(** ** What [handleFileOpen] records *)

Lemma last_erase_front {A} (n : nat) (v : list A) (x : A) :
  (n ≤ length v)%nat →
  last (ProcessMonitoring.erase 0 n (v ++ [x])) = Some x.
Proof.
  intros Hn. unfold ProcessMonitoring.erase.
  rewrite take_0, app_nil_l, drop_app_le by done. apply last_snoc.
Qed.

Lemma handleFileOpen_records (os : OS) (m : es_message_t) (c : Controller)
    (path : string) :
  open_file_path (event m) = Some path → databaseMutex c = false →
  let access :=
    ProcessMonitoring.open_access os (audit_token_to_pid (process m)) path
      (microphoneEnabled c) (cameraEnabled c) in
  ∃ c', ProcessMonitoring.handleFileOpen os m c = Returned tt c' ∧
    last (recentFileAccess c') = Some access ∧
    (is_Some (database c) →
     stored_file_access c' = stored_file_access c ++ [file_access_row access]).
Proof.
  intros Hpath Hfree access. unfold ProcessMonitoring.handleFileOpen.
  rewrite Hpath. unfold bind, get. rewrite logFileAccess_free by done.
  unfold modify. fold access. simpl.
  set (c1 := set_database _ c).
  assert (is_Some (database c) →
          stored_file_access c1
          = stored_file_access c ++ [file_access_row access]) as Hstored.
  { intros [db Hdb]. subst c1. unfold stored_file_access. by rewrite Hdb. }
  destruct (10000 <? _) eqn:Hfull; eexists; (split; [reflexivity|]); simpl.
  - split; [|done]. apply last_erase_front.
    apply Z.ltb_lt in Hfull. unfold ProcessMonitoring.size in Hfull.
    unfold ProcessMonitoring.push_back in Hfull.
    rewrite length_app in Hfull. cbn [length] in Hfull.
    subst c1. simpl in *. lia.
  - split; [apply last_snoc | done].
Qed.

(** X18: an open that [handleFileOpen] handles is recorded in both places:
    the record it built is the last entry of the recent-access buffer, also
    right after the buffer has been trimmed, and, when the audit store is
    open, the last row of [file_access]. *)
Theorem X18_open_recorded_in_buffer_and_store (os : OS) (m : es_message_t)
    (c : Controller) (path : string) :
  open_file_path (event m) = Some path → databaseMutex c = false →
  is_Some (database c) →
  ∃ c' access,
    ProcessMonitoring.handleFileOpen os m c = Returned tt c' ∧
    FileAccess.filePath access = path ∧
    last (recentFileAccess c') = Some access ∧
    last (stored_file_access c') = Some (file_access_row access).
Proof.
  intros Hpath Hfree Hdb.
  destruct (handleFileOpen_records os m c path Hpath Hfree)
    as (c' & Hrun & Hlast & Hstored).
  eexists c', _. split; [done|]. split; [|split; [exact Hlast|]].
  - unfold ProcessMonitoring.open_access.
    by repeat match goal with |- context [if ?b then _ else _] =>
         destruct b end.
  - rewrite Hstored by done. apply last_snoc.
Qed.

Lemma X18_open_recorded_in_buffer_and_store_witness :
  ∃ c' access,
    ProcessMonitoring.handleFileOpen quiet_os
      (message_on ES_EVENT_TYPE_NOTIFY_OPEN (Some "/tmp/a"%string))
      full_buffer = Returned tt c' ∧
    FileAccess.filePath access = "/tmp/a"%string ∧
    last (recentFileAccess c') = Some access ∧
    last (stored_file_access c') = Some (file_access_row access).
Proof.
  apply (X18_open_recorded_in_buffer_and_store quiet_os
           (message_on ES_EVENT_TYPE_NOTIFY_OPEN (Some "/tmp/a"%string))
           full_buffer "/tmp/a").
  - reflexivity.
  - reflexivity.
  - by eexists.
Defined.

(** X19: the callback of [ProcessMonitoring.cpp] allows every open it
    records as blocked.  For an [AUTH_OPEN] message whose path holds
    [/dev/audio] or [coreaudio] while the microphone is disabled, or
    [/dev/video] or [AVCapture] while the camera is disabled, the row it
    appends to [file_access] is marked blocked, and its one response is
    ALLOW. *)
Theorem X19_recorded_as_blocked_yet_allowed (os : OS) (c : Controller)
    (m : es_message_t) (path : string) :
  event_type m = ES_EVENT_TYPE_AUTH_OPEN →
  action_type m = ES_ACTION_TYPE_AUTH →
  open_file_path (event m) = Some path →
  databaseMutex c = false → is_Some (database c) →
  (microphoneEnabled c = false ∧
     (Substring "/dev/audio" path ∨ Substring "coreaudio" path)) ∨
  (cameraEnabled c = false ∧
     (Substring "/dev/video" path ∨ Substring "AVCapture" path)) →
  let monitor := ProcessMonitoring.handleESEvent os c m in
  monitor.1 = [ES_AUTH_RESULT_ALLOW] ∧
  ∃ row, last (stored_file_access (final monitor.2)) = Some row ∧
    file_access.file_path row = path ∧
    file_access.was_blocked row = 1.
Proof.
  intros Hopen Hauth Hpath Hfree Hdb Hdevice monitor.
  destruct (handleFileOpen_records os m c path Hpath Hfree)
    as (c' & Hrun & _ & Hstored).
  subst monitor. unfold ProcessMonitoring.handleESEvent.
  unfold ProcessMonitoring.route. rewrite Hopen, Hrun. simpl.
  rewrite Hauth. split; [done|].
  rewrite Hstored by done. eexists. split; [apply last_snoc|].
  unfold ProcessMonitoring.open_access.
  rewrite <- !found_spec in Hdevice.
  destruct Hdevice as [[-> Haudio]|[-> Hvideo]].
  - apply orb_true_iff in Haudio as ->. done.
  - apply orb_true_iff in Hvideo as ->. simpl.
    by destruct (_ && _).
Qed.

Lemma X19_recorded_as_blocked_yet_allowed_witness :
  (ProcessMonitoring.handleESEvent quiet_os camera_off
     (message_on ES_EVENT_TYPE_AUTH_OPEN (Some "/dev/video0"%string))).1
  = [ES_AUTH_RESULT_ALLOW].
Proof.
  destruct (X19_recorded_as_blocked_yet_allowed quiet_os camera_off
              (message_on ES_EVENT_TYPE_AUTH_OPEN (Some "/dev/video0"%string))
              "/dev/video0") as [Hallow _].
  - reflexivity.
  - reflexivity.
  - reflexivity.
  - reflexivity.
  - by eexists.
  - right. split; [reflexivity|]. left. by exists ""%string, "0"%string.
  - exact Hallow.
Defined.

(** X20: the record and the decision.  Whenever [handleFileOpen] would
    mark an open as blocked, the callback of [AudioVideoController.cpp]
    denies the same open, except for a path with one of its audio markers
    while the microphone is enabled. *)
Theorem X20_blocked_record_is_a_denied_open (os : OS) (c : Controller)
    (m : es_message_t) (path : string) :
  event_type m = ES_EVENT_TYPE_AUTH_OPEN →
  open_file_path (event m) = Some path →
  FileAccess.wasBlocked
    (ProcessMonitoring.open_access os (audit_token_to_pid (process m)) path
       (microphoneEnabled c) (cameraEnabled c)) = true →
  (AudioVideoController.handleESEvent c m).1 = [ES_AUTH_RESULT_DENY] ∨
  (has_audio_marker path ∧ microphoneEnabled c = true).
Proof.
  intros Hopen Hpath Hblocked.
  unfold AudioVideoController.handleESEvent. simpl. rewrite Hopen, Hpath.
  unfold AudioVideoController.isMicrophoneEnabled,
    AudioVideoController.isCameraEnabled.
  unfold ProcessMonitoring.open_access in Hblocked.
  destruct (AudioVideoController.audio_device_path path) eqn:Haudio.
  { destruct (microphoneEnabled c); [right | by left].
    split; [|done]. by apply audio_device_path_spec. }
  unfold AudioVideoController.audio_device_path in Haudio.
  apply orb_false_iff in Haudio as [Haudio _].
  apply orb_false_iff in Haudio as [Haudio _].
  apply orb_false_iff in Haudio as [Hdev Hcore].
  unfold ProcessMonitoring.found in Hblocked.
  unfold strstr in Hdev, Hcore.
  destruct (string_find path "/dev/audio"); [done|].
  destruct (string_find path "coreaudio"); [done|].
  simpl in Hblocked. left.
  unfold AudioVideoController.video_device_path, strstr.
  destruct (string_find path "/dev/video"), (string_find path "AVCapture");
    simpl in *; by destruct (cameraEnabled c).
Qed.

Lemma X20_blocked_record_is_a_denied_open_witness :
  (AudioVideoController.handleESEvent camera_off
     (message_on ES_EVENT_TYPE_AUTH_OPEN (Some "/dev/video0"%string))).1
    = [ES_AUTH_RESULT_DENY] ∨
  (has_audio_marker "/dev/video0" ∧ microphoneEnabled camera_off = true).
Proof.
  apply (X20_blocked_record_is_a_denied_open quiet_os camera_off
           (message_on ES_EVENT_TYPE_AUTH_OPEN (Some "/dev/video0"%string))
           "/dev/video0"); reflexivity.
Defined.

(** ** System-critical processes *)

Lemma find_from_ge (needle s : string) (pos n : nat) :
  find_from needle s pos = Some n → (pos ≤ n)%nat.
Proof.
  revert pos. induction s as [|a s IH]; intros pos.
  - change (find_from needle "" pos)
      with (if String.prefix needle "" then Some pos else None).
    destruct (String.prefix needle ""); [intros [= <-]; lia | done].
  - change (find_from needle (String a s) pos)
      with (if String.prefix needle (String a s) then Some pos
            else find_from needle s (S pos)).
    destruct (String.prefix needle (String a s)); [intros [= <-]; lia|].
    intros Hfind. apply IH in Hfind. lia.
Qed.

Lemma found_at_0_spec (path needle : string) :
  found_at_0 path needle = true ↔ StartsWith needle path.
Proof.
  unfold found_at_0, string_find, StartsWith. rewrite <- prefix_spec.
  destruct path as [|a path].
  - change (find_from needle "" 0)
      with (if String.prefix needle "" then Some 0%nat else None).
    by destruct (String.prefix needle "").
  - change (find_from needle (String a path) 0)
      with (if String.prefix needle (String a path) then Some 0%nat
            else find_from needle path 1).
    destruct (String.prefix needle (String a path)); [done|].
    destruct (find_from needle path 1) as [[|n]|] eqn:Hfind; try done.
    apply find_from_ge in Hfind. lia.
Qed.

(** X21: a process is classified as system-critical exactly when its
    executable path can be read and either starts with [/System/], [/usr/],
    [/sbin/] or [/bin/], or contains one of the eleven process names
    anywhere, in a directory name as well as in the file name. *)
Theorem X21_system_critical_by_path (os : OS) (pid : Z) :
  isSystemCriticalProcess os pid = true ↔
  ∃ path, proc_pidpath os pid = Some path ∧
    (StartsWith "/System/" path ∨ StartsWith "/usr/" path ∨
     StartsWith "/sbin/" path ∨ StartsWith "/bin/" path ∨
     ∃ name, name ∈ systemProcesses ∧ Substring name path).
Proof.
  unfold isSystemCriticalProcess.
  destruct (proc_pidpath os pid) as [path|]; [|split; [done|]].
  2: { by intros (path & ? & _). }
  assert (existsb (fun sysProc => strstr path sysProc) systemProcesses = true
          ↔ ∃ name, name ∈ systemProcesses ∧ Substring name path) as Hnames.
  { rewrite existsb_exists. split; intros (name & Hin & Hsub); exists name.
    - split; [by apply list_elem_of_In | by apply strstr_spec].
    - split; [by apply list_elem_of_In | by apply strstr_spec]. }
  split.
  - intros Hcrit. exists path. split; [done|].
    rewrite <- Hnames, <- !found_at_0_spec.
    destruct (found_at_0 path "/System/"); [by left|].
    destruct (found_at_0 path "/usr/"); [by right; left|].
    destruct (found_at_0 path "/sbin/"); [by right; right; left|].
    destruct (found_at_0 path "/bin/"); [by right; right; right; left|].
    by right; right; right; right.
  - intros (path' & [= <-] & Hcase).
    rewrite <- Hnames, <- !found_at_0_spec in Hcase.
    destruct Hcase as [->|[->|[->|[->|Hname]]]];
      rewrite ?orb_true_r; try done.
    by destruct (_ || _).
Qed.

(** ** The table of network connections *)

Global Instance network_kept_preorder : PreOrder network_kept.
Proof.
  split; [by intros c|]. unfold network_kept. intros c1 c2 c3. congruence.
Qed.

Lemma network_kept_write (ins : AuditDb → AuditDb) :
  handler_write ins → respects network_kept (sqlite3_insert ins).
Proof.
  intros Hwrite. apply respects_modify. intros c.
  destruct (database c) as [db|] eqn:Hdb; [|reflexivity].
  unfold network_kept, stored_network_connections. simpl. rewrite Hdb.
  by destruct Hwrite.
Qed.

(** X22: nothing writes to [network_connections].  The network scan logs
    no connection, since [parseNetstat] returns none, and neither the
    callback of [ProcessMonitoring.cpp], for any message, nor process
    discovery adds a row to the table, whether they return or block. *)
Theorem X22_network_table_is_never_written (os : OS) (c : Controller)
    (m : es_message_t) (procs : option (list Z)) :
  ProcessDiscovery.scanNetworkConnections c = Returned tt c ∧
  stored_network_connections
    (final (ProcessMonitoring.handleESEvent os c m).2)
    = stored_network_connections c ∧
  stored_network_connections
    (final (ProcessDiscovery.scanRunningProcesses os procs c))
    = stored_network_connections c.
Proof.
  split; [done|]. split.
  - rewrite final_handleESEvent.
    apply (frame_route network_kept); try done.
    apply network_kept_write.
  - unfold ProcessDiscovery.scanRunningProcesses.
    destruct procs as [pids|]; [|done].
    apply (respects_for_each network_kept). intros pid.
    unfold ProcessDiscovery.discover. apply respects_get_bind. intros c1.
    destruct (runningProcesses c1 !! pid); [done|].
    unfold bind, modify.
    set (c2 := set_runningProcesses _ c1).
    transitivity c2; [done|].
    apply (frame_logProcessEvent network_kept); [done|].
    apply network_kept_write.
Qed.
